(** * vet-scribe-ai: the browser client of the transcription pipeline

    A shallow embedding of the three React components of the front end
    ([AudioRecorder.tsx], [TranscriptionResult.tsx] and the [Home] page)
    together with the properties of the polling contract they implement.

    The components are event driven: every handler of the source runs to
    its next [await] and is resumed by a later event of the browser (a
    timer tick, the answer to an HTTP request, a MediaRecorder event).
    The model keeps that structure: one Rocq function per handler segment,
    a [step] function that dispatches an event to its segment, and [run]
    over a list of events. *)

From Stdlib Require Import Ascii String List ZArith QArith Bool Lia.
From stdpp Require Import base option list gmap strings.
Import ListNotations.

Set Warnings "-register-all".

Local Close Scope Q_scope.
Local Open Scope string_scope.
Local Open Scope list_scope.

(** ** JavaScript values as the components see them *)

Module JS.

(** The payloads are parsed JSON ([response.data]) typed [any] in the
    source.  An object lists its own properties; an earlier entry shadows
    a later one of the same name. *)
Inductive JSValue : Type :=
| JUndefined
| JNull
| JBool (b : bool)
| JNum (q : Q)
| JStr (s : string)
| JArr (items : list JSValue)
| JObj (fields : list (string * JSValue)).

Fixpoint lookup_field (fields : list (string * JSValue)) (name : string)
  : JSValue :=
  match fields with
  | [] => JUndefined
  | (k, v) :: rest => if String.eqb k name then v else lookup_field rest name
  end.

(** [v.name] for the data properties the client reads.  Reading a property
    of [undefined] or [null] throws a TypeError ([None]); a primitive or an
    array has none of these properties. *)
Definition get_prop (v : JSValue) (name : string) : option JSValue :=
  match v with
  | JUndefined | JNull => None
  | JObj fields => Some (lookup_field fields name)
  | _ => Some JUndefined
  end.

Definition nullish (v : JSValue) : bool :=
  match v with
  | JUndefined | JNull => true
  | _ => false
  end.

(** [v?.name] *)
Definition opt_get (v : JSValue) (name : string) : JSValue :=
  match get_prop v name with
  | Some x => x
  | None => JUndefined
  end.

(** ToBoolean *)
Definition truthy (v : JSValue) : bool :=
  match v with
  | JUndefined | JNull => false
  | JBool b => b
  | JNum q => negb (Z.eqb (Qnum q) 0)
  | JStr s => negb (String.eqb s "")
  | JArr _ | JObj _ => true
  end.

(** [a || b] *)
Definition or_else (a b : JSValue) : JSValue :=
  if truthy a then a else b.

(** [v === 'lit'] for a string literal *)
Definition is_str (v : JSValue) (lit : string) : bool :=
  match v with
  | JStr s => String.eqb s lit
  | _ => false
  end.

End JS.

Import JS.

(** ** AudioRecorder.tsx *)

Module Recorder.

(** A [Blob]: its bytes and its declared type. *)
Record Blob : Type := mkBlob {
  blob_bytes : list Byte.byte;
  blob_type : string
}.

Definition blob_size (b : Blob) : nat := length (blob_bytes b).

(** [new Blob(parts, { type })] *)
Definition new_Blob (parts : list Blob) (type : string) : Blob :=
  mkBlob (concat (map blob_bytes parts)) type.

(** [FormData]: the appended entries (field name, blob, file name). *)
Definition FormData : Type := list (string * Blob * string).

(** The HTTP requests the component issues through axios.  The task id is
    kept as the value spliced into the URL template. *)
Inductive Request : Type :=
| PostTranscribe (form : FormData) (content_type : string)
| GetProgress (taskId : JSValue)
| GetResults (taskId : JSValue).

(** How an axios promise settles: with [response.data], or rejected with
    an error whose [response] property is given ([undefined] for a network
    failure). *)
Inductive Outcome : Type :=
| Resolved (data : JSValue)
| Rejected (err_response : JSValue).

(** How [startRecording] gets past [getUserMedia] and the MediaRecorder
    set up: the promise rejects or the constructor throws, or a recorder
    is created ([opus]: what [isTypeSupported] answered; [started]: whether
    [start(1000)] returned normally). *)
Inductive MediaOutcome : Type :=
| MediaRejected
| MediaGranted (opus : bool) (started : bool).

Inductive RecState : Type := Recording | Stopping | Inactive.

Record MediaRecorder : Type := mkRecorder {
  rec_id : nat;
  rec_mime : string;
  rec_state : RecState
}.

(** The component: its [useState] cells, its refs, the browser objects it
    created (interval timers, recorders, promises not yet settled) and the
    effects it had on the outside (requests sent, props called). *)
Record State : Type := mkState {
  isRecording : bool;
  isProcessing : bool;
  currentTaskId : JSValue;
  error : JSValue;
  progressIntervalRef : option nat;
  mediaRecorderRef : option nat;
  audioChunksRef : list Blob;
  timers : list (nat * JSValue);
  recorders : list MediaRecorder;
  pendingMedia : nat;
  pending : list (nat * Request);
  fresh : nat;
  log : list (nat * Request);
  progressUpdates : list JSValue;
  completions : list JSValue
}.

Definition init : State :=
  mkState false false JNull JNull None None [] [] [] 0 [] 0 [] [] [].

Definition setIsRecording (b : bool) (s : State) : State :=
  mkState b (isProcessing s) (currentTaskId s) (error s)
    (progressIntervalRef s) (mediaRecorderRef s) (audioChunksRef s)
    (timers s) (recorders s) (pendingMedia s) (pending s) (fresh s)
    (log s) (progressUpdates s) (completions s).

Definition setIsProcessing (b : bool) (s : State) : State :=
  mkState (isRecording s) b (currentTaskId s) (error s)
    (progressIntervalRef s) (mediaRecorderRef s) (audioChunksRef s)
    (timers s) (recorders s) (pendingMedia s) (pending s) (fresh s)
    (log s) (progressUpdates s) (completions s).

Definition setCurrentTaskId (v : JSValue) (s : State) : State :=
  mkState (isRecording s) (isProcessing s) v (error s)
    (progressIntervalRef s) (mediaRecorderRef s) (audioChunksRef s)
    (timers s) (recorders s) (pendingMedia s) (pending s) (fresh s)
    (log s) (progressUpdates s) (completions s).

Definition setError (v : JSValue) (s : State) : State :=
  mkState (isRecording s) (isProcessing s) (currentTaskId s) v
    (progressIntervalRef s) (mediaRecorderRef s) (audioChunksRef s)
    (timers s) (recorders s) (pendingMedia s) (pending s) (fresh s)
    (log s) (progressUpdates s) (completions s).

Definition set_progressIntervalRef (r : option nat) (s : State) : State :=
  mkState (isRecording s) (isProcessing s) (currentTaskId s) (error s)
    r (mediaRecorderRef s) (audioChunksRef s)
    (timers s) (recorders s) (pendingMedia s) (pending s) (fresh s)
    (log s) (progressUpdates s) (completions s).

Definition set_mediaRecorderRef (r : option nat) (s : State) : State :=
  mkState (isRecording s) (isProcessing s) (currentTaskId s) (error s)
    (progressIntervalRef s) r (audioChunksRef s)
    (timers s) (recorders s) (pendingMedia s) (pending s) (fresh s)
    (log s) (progressUpdates s) (completions s).

Definition set_audioChunksRef (l : list Blob) (s : State) : State :=
  mkState (isRecording s) (isProcessing s) (currentTaskId s) (error s)
    (progressIntervalRef s) (mediaRecorderRef s) l
    (timers s) (recorders s) (pendingMedia s) (pending s) (fresh s)
    (log s) (progressUpdates s) (completions s).

Definition set_timers (l : list (nat * JSValue)) (s : State) : State :=
  mkState (isRecording s) (isProcessing s) (currentTaskId s) (error s)
    (progressIntervalRef s) (mediaRecorderRef s) (audioChunksRef s)
    l (recorders s) (pendingMedia s) (pending s) (fresh s)
    (log s) (progressUpdates s) (completions s).

Definition set_recorders (l : list MediaRecorder) (s : State) : State :=
  mkState (isRecording s) (isProcessing s) (currentTaskId s) (error s)
    (progressIntervalRef s) (mediaRecorderRef s) (audioChunksRef s)
    (timers s) l (pendingMedia s) (pending s) (fresh s)
    (log s) (progressUpdates s) (completions s).

Definition set_pendingMedia (n : nat) (s : State) : State :=
  mkState (isRecording s) (isProcessing s) (currentTaskId s) (error s)
    (progressIntervalRef s) (mediaRecorderRef s) (audioChunksRef s)
    (timers s) (recorders s) n (pending s) (fresh s)
    (log s) (progressUpdates s) (completions s).

Definition set_pending (l : list (nat * Request)) (s : State) : State :=
  mkState (isRecording s) (isProcessing s) (currentTaskId s) (error s)
    (progressIntervalRef s) (mediaRecorderRef s) (audioChunksRef s)
    (timers s) (recorders s) (pendingMedia s) l (fresh s)
    (log s) (progressUpdates s) (completions s).

Definition set_fresh (n : nat) (s : State) : State :=
  mkState (isRecording s) (isProcessing s) (currentTaskId s) (error s)
    (progressIntervalRef s) (mediaRecorderRef s) (audioChunksRef s)
    (timers s) (recorders s) (pendingMedia s) (pending s) n
    (log s) (progressUpdates s) (completions s).

Definition set_log (l : list (nat * Request)) (s : State) : State :=
  mkState (isRecording s) (isProcessing s) (currentTaskId s) (error s)
    (progressIntervalRef s) (mediaRecorderRef s) (audioChunksRef s)
    (timers s) (recorders s) (pendingMedia s) (pending s) (fresh s)
    l (progressUpdates s) (completions s).

(** The two props of the component, called with a payload. *)
Definition onProgressUpdate (p : JSValue) (s : State) : State :=
  mkState (isRecording s) (isProcessing s) (currentTaskId s) (error s)
    (progressIntervalRef s) (mediaRecorderRef s) (audioChunksRef s)
    (timers s) (recorders s) (pendingMedia s) (pending s) (fresh s)
    (log s) (progressUpdates s ++ [p]) (completions s).

Definition onTranscriptionComplete (r : JSValue) (s : State) : State :=
  mkState (isRecording s) (isProcessing s) (currentTaskId s) (error s)
    (progressIntervalRef s) (mediaRecorderRef s) (audioChunksRef s)
    (timers s) (recorders s) (pendingMedia s) (pending s) (fresh s)
    (log s) (progressUpdates s) (completions s ++ [r]).

(** *** Browser objects *)

Fixpoint assoc {A : Type} (k : nat) (l : list (nat * A)) : option A :=
  match l with
  | [] => None
  | (i, x) :: rest => if Nat.eqb i k then Some x else assoc k rest
  end.

Definition remove_key {A : Type} (k : nat) (l : list (nat * A))
  : list (nat * A) :=
  List.filter (fun p => negb (Nat.eqb (fst p) k)) l.

(** [axios.get] and [axios.post]: the request leaves, its promise is
    pending until a [Response] event settles it. *)
Definition send (r : Request) (s : State) : State :=
  let rid := fresh s in
  set_fresh (S rid)
    (set_pending (pending s ++ [(rid, r)])
       (set_log (log s ++ [(rid, r)]) s)).

(** [clearInterval(progressIntervalRef.current!)]: the timer named by the
    ref stops firing; the ref keeps its value. *)
Definition clearInterval (r : option nat) (s : State) : State :=
  match r with
  | Some t => set_timers (remove_key t (timers s)) s
  | None => s
  end.

Definition find_recorder (r : nat) (s : State) : option MediaRecorder :=
  List.find (fun m => Nat.eqb (rec_id m) r) (recorders s).

Definition set_rec_state (r : nat) (st : RecState) (s : State) : State :=
  set_recorders
    (map (fun m => if Nat.eqb (rec_id m) r
                   then mkRecorder (rec_id m) (rec_mime m) st else m)
       (recorders s)) s.

(** *** pollProgress (lines 92-119) *)

(** [progressIntervalRef.current = setInterval(async () => ..., 1000)]:
    a new timer whose callback closes over [taskId]. *)
Definition pollProgress (taskId : JSValue) (s : State) : State :=
  let t := fresh s in
  set_progressIntervalRef (Some t)
    (set_timers (timers s ++ [(t, taskId)]) (set_fresh (S t) s)).

(** The callback up to its first [await]: the progress request. *)
Definition interval_callback (taskId : JSValue) (s : State) : State :=
  send (GetProgress taskId) s.

(** The [catch] block of the callback. *)
Definition poll_catch (s : State) : State :=
  setCurrentTaskId JNull
    (setIsProcessing false
       (setError (JStr "Failed to get progress")
          (clearInterval (progressIntervalRef s) s))).

(** The callback from the settled progress request to its next [await]
    or its end. *)
Definition poll_progress_settled (taskId : JSValue) (o : Outcome)
    (s : State) : State :=
  match o with
  | Rejected _ => poll_catch s
  | Resolved progress =>
      let s1 := onProgressUpdate progress s in
      match get_prop progress "status" with
      | None => poll_catch s1
      | Some status =>
          if is_str status "completed" then
            send (GetResults taskId)
              (clearInterval (progressIntervalRef s1) s1)
          else if is_str status "error" then
            match get_prop progress "current_stage" with
            | None => poll_catch s1
            | Some stage =>
                setCurrentTaskId JNull
                  (setIsProcessing false
                     (setError (or_else stage (JStr "Transcription failed"))
                        (clearInterval (progressIntervalRef s1) s1)))
            end
          else s1
      end
  end.

(** The callback from the settled result request to its end. *)
Definition poll_results_settled (o : Outcome) (s : State) : State :=
  match o with
  | Rejected _ => poll_catch s
  | Resolved data =>
      setCurrentTaskId JNull
        (setIsProcessing false (onTranscriptionComplete data s))
  end.

(** *** processAudio (lines 64-90) *)

Definition processAudio (audioBlob : Blob) (s : State) : State :=
  send (PostTranscribe [("file", audioBlob, "recording.webm")]
          "multipart/form-data")
    (setError JNull (setIsProcessing true s)).

(** The [catch] block: [err.response?.data?.detail || '...']. *)
Definition processAudio_catch (err_response : JSValue) (s : State) : State :=
  setIsProcessing false
    (setError
       (or_else (opt_get (opt_get err_response "data") "detail")
          (JStr "Failed to start transcription")) s).

(** From the settled upload to the end of [processAudio].  Destructuring
    [task_id] out of a [null] payload throws a TypeError, an error without
    [response]. *)
Definition processAudio_settled (o : Outcome) (s : State) : State :=
  match o with
  | Rejected r => processAudio_catch r s
  | Resolved data =>
      match get_prop data "task_id" with
      | None => processAudio_catch JUndefined s
      | Some task_id => pollProgress task_id (setCurrentTaskId task_id s)
      end
  end.

(** *** startRecording and stopRecording (lines 18-62) *)

Definition microphone_message : string :=
  "Failed to access microphone. Please check permissions.".

(** Up to [await getUserMedia]. *)
Definition startRecording (s : State) : State :=
  set_pendingMedia (S (pendingMedia s)) s.

(** From the settled [getUserMedia] on. *)
Definition startRecording_settled (o : MediaOutcome) (s : State) : State :=
  match o with
  | MediaRejected => setError (JStr microphone_message) s
  | MediaGranted opus started =>
      let r := fresh s in
      let mime := if opus then "audio/webm;codecs=opus" else "" in
      let m := mkRecorder r mime (if started then Recording else Inactive) in
      let s1 :=
        set_audioChunksRef []
          (set_mediaRecorderRef (Some r)
             (set_recorders (recorders s ++ [m]) (set_fresh (S r) s))) in
      if started then setError JNull (setIsRecording true s1)
      else setError (JStr microphone_message) s1
  end.

(** [mediaRecorder.ondataavailable] *)
Definition ondataavailable (data : Blob) (s : State) : State :=
  if Nat.ltb 0 (blob_size data)
  then set_audioChunksRef (audioChunksRef s ++ [data]) s
  else s.

(** [mediaRecorder.onstop] up to the [await] inside [processAudio]; the
    tracks it stops afterwards are no part of the component's state. *)
Definition onstop (s : State) : State :=
  processAudio (new_Blob (audioChunksRef s) "audio/webm") s.

(** [stop()] on a recorder that is not recording returns at once. *)
Definition stopRecording (s : State) : State :=
  match mediaRecorderRef s with
  | Some r =>
      if isRecording s then
        setIsRecording false
          (match find_recorder r s with
           | Some m =>
               match rec_state m with
               | Recording => set_rec_state r Stopping s
               | _ => s
               end
           | None => s
           end)
      else s
  | None => s
  end.

(** *** The rendered controls (lines 128-153, 184-195) *)

Definition start_disabled (s : State) : bool :=
  isRecording s || isProcessing s.

Definition stop_disabled (s : State) : bool :=
  negb (isRecording s) || isProcessing s.

(** [{error && <p>{error}</p>}] *)
Definition error_display (s : State) : option JSValue :=
  if truthy (error s) then Some (error s) else None.

(** *** Events *)

Inductive Event : Type :=
| ClickStart
| ClickStop
| UserMedia (o : MediaOutcome)
| DataAvailable (recorder : nat) (data : Blob)
| RecorderStop (recorder : nat)
| Tick (timer : nat)
| Response (rid : nat) (o : Outcome).

(** One event of the browser, [None] when it cannot happen in [s]: a
    disabled button is not clicked, only a live timer ticks, only a pending
    promise settles, only a recorder that has not stopped yet delivers data
    or stops (on [stop()], or by itself when its tracks end). *)
Definition step (s : State) (e : Event) : option State :=
  match e with
  | ClickStart =>
      if start_disabled s then None else Some (startRecording s)
  | ClickStop =>
      if stop_disabled s then None else Some (stopRecording s)
  | UserMedia o =>
      match pendingMedia s with
      | O => None
      | S n => Some (startRecording_settled o (set_pendingMedia n s))
      end
  | DataAvailable r data =>
      match find_recorder r s with
      | Some m =>
          match rec_state m with
          | Inactive => None
          | _ => Some (ondataavailable data s)
          end
      | None => None
      end
  | RecorderStop r =>
      match find_recorder r s with
      | Some m =>
          match rec_state m with
          | Inactive => None
          | _ => Some (onstop (set_rec_state r Inactive s))
          end
      | None => None
      end
  | Tick t =>
      match assoc t (timers s) with
      | Some taskId => Some (interval_callback taskId s)
      | None => None
      end
  | Response rid o =>
      match assoc rid (pending s) with
      | Some req =>
          let s1 := set_pending (remove_key rid (pending s)) s in
          Some (match req with
                | PostTranscribe _ _ => processAudio_settled o s1
                | GetProgress taskId => poll_progress_settled taskId o s1
                | GetResults _ => poll_results_settled o s1
                end)
      | None => None
      end
  end.

Fixpoint run (s : State) (evs : list Event) : option State :=
  match evs with
  | [] => Some s
  | e :: rest =>
      match step s e with
      | Some s1 => run s1 rest
      | None => None
      end
  end.

(** What the outside sees. *)
Definition requests (s : State) : list Request := map snd (log s).

Definition timer_live (t : nat) (s : State) : bool :=
  match assoc t (timers s) with Some _ => true | None => false end.

(** The polling started by the last [pollProgress] still fires. *)
Definition polling (s : State) : bool :=
  match progressIntervalRef s with
  | Some t => timer_live t s
  | None => false
  end.

Definition is_results_for (taskId : string) (r : Request) : bool :=
  match r with
  | GetResults t => is_str t taskId
  | _ => false
  end.

Definition is_progress_for (taskId : string) (r : Request) : bool :=
  match r with
  | GetProgress t => is_str t taskId
  | _ => false
  end.

Definition count_results (taskId : string) (s : State) : nat :=
  length (List.filter (is_results_for taskId) (requests s)).

Definition count_progress (taskId : string) (s : State) : nat :=
  length (List.filter (is_progress_for taskId) (requests s)).

End Recorder.

(** ** TranscriptionResult.tsx *)

Module TranscriptionResult.

Inductive Tab : Type := TabTranscript | TabEntities | TabSecurity.

(** A piece of rendered text.  Number formatting is kept symbolic:
    [Fixed q d u] is the template [`${q.toFixed(d)}u`]. *)
Inductive Text : Type :=
| Lit (s : string)
| Fixed (q : Q) (digits : nat) (suffix : string)
| PercentOf (v : JSValue).

(** [result.confidence ? `${(result.confidence * 100).toFixed(1)}%` : 'N/A'];
    [PercentOf v] stands for the template at a truthy [v] that is not a
    number (the product coerces it). *)
Definition confidence_text (v : JSValue) : Text :=
  if truthy v then
    match v with
    | JNum q => Fixed (q * 100)%Q 1 "%"
    | _ => PercentOf v
    end
  else Lit "N/A".

(** [x ? `${x.toFixed(d)}s` : 'N/A']: a truthy value that is not a number
    has no [toFixed], the render throws. *)
Definition seconds_text (digits : nat) (v : JSValue) : option Text :=
  if truthy v then
    match v with
    | JNum q => Some (Fixed q digits "s")
    | _ => None
    end
  else Some (Lit "N/A").

(** [xs && xs.length > 0 ? xs.map(chip) : <p>none</p>]: an array gives one
    chip per element; a number or [true] has no [length]; a non-empty
    string has a [length] and no [map], the render throws; for an object
    its own [length] property decides, which is left symbolic. *)
Inductive Entities : Type :=
| Chips (items : list JSValue)
| NoneIdentified (message : string)
| NotAnArray (v : JSValue).

Definition entities (v : JSValue) (none : string) : option Entities :=
  if truthy v then
    match v with
    | JArr [] => Some (NoneIdentified none)
    | JArr items => Some (Chips items)
    | JStr _ => None
    | JObj _ => Some (NotAnArray v)
    | _ => Some (NoneIdentified none)
    end
  else Some (NoneIdentified none).

Inductive Panel : Type :=
| TranscriptPanel (transcript : JSValue) (confidence : Text) (duration : Text)
| EntitiesPanel (diagnoses : Entities) (treatments : Entities)
| SecurityPanel.

Record View : Type := mkView {
  panel : Panel;
  footer_task_id : JSValue;
  footer_processing_time : Text
}.

(** The tab content (lines 60-201). *)
Definition render_panel (result : JSValue) (activeTab : Tab)
  : option Panel :=
  match activeTab with
  | TabTranscript =>
      match get_prop result "transcript", get_prop result "confidence",
            get_prop result "duration" with
      | Some t, Some c, Some d =>
          match seconds_text 1 d with
          | Some dt =>
              Some (TranscriptPanel
                      (or_else t (JStr "No transcript available"))
                      (confidence_text c) dt)
          | None => None
          end
      | _, _, _ => None
      end
  | TabEntities =>
      match get_prop result "diagnoses", get_prop result "treatments" with
      | Some d, Some t =>
          match entities d "No diagnoses identified",
                entities t "No treatments identified" with
          | Some dv, Some tv => Some (EntitiesPanel dv tv)
          | _, _ => None
          end
      | _, _ => None
      end
  | TabSecurity => Some SecurityPanel
  end.

(** The component: the active tab's panel and the footer (lines 203-215),
    as the element tree it returns, values placed as children kept as they
    are; [None] when the component function throws. *)
Definition render (result : JSValue) (activeTab : Tab) : option View :=
  match render_panel result activeTab with
  | Some p =>
      match get_prop result "task_id", get_prop result "processing_time" with
      | Some tid, Some pt =>
          match seconds_text 2 pt with
          | Some ptt => Some (mkView p (or_else tid (JStr "N/A")) ptt)
          | None => None
          end
      | _, _ => None
      end
  | None => None
  end.

(** The properties of [result] the component reads. *)
Definition result_fields : list string :=
  ["transcript"; "confidence"; "duration"; "diagnoses"; "treatments";
   "task_id"; "processing_time"].

End TranscriptionResult.

(** ** The Home page (the second component of pages/test-connection.tsx) *)

Module Home.

(** [s.replace('_', ' ')]: the first underscore only. *)
Fixpoint replace_underscore (s : string) : string :=
  match s with
  | EmptyString => EmptyString
  | String c rest =>
      if Ascii.eqb c "_"%char then String " "%char rest
      else String c (replace_underscore rest)
  end.

Inductive Icon : Type := IconDone | IconError | IconBusy.

(** One entry of the stage list: its icon, its title, the message child
    and the value handed to [new Date(...)]. *)
Record StageRow : Type := mkRow {
  row_icon : Icon;
  row_title : string;
  row_message : JSValue;
  row_timestamp : JSValue
}.

(** [stage.stage === 'completed' ? done : stage.stage === 'error' ? ...] *)
Definition stage_icon (name : string) : Icon :=
  if String.eqb name "completed" then IconDone
  else if String.eqb name "error" then IconError
  else IconBusy.

(** One [stage] of [progress.stages.map((stage, index) => ...)]; a
    [stage.stage] that is not a string has no [replace], the render
    throws. *)
Definition stage_row (stage : JSValue) : option StageRow :=
  match get_prop stage "stage", get_prop stage "message",
        get_prop stage "timestamp" with
  | Some (JStr name), Some msg, Some ts =>
      Some (mkRow (stage_icon name) (replace_underscore name) msg ts)
  | _, _, _ => None
  end.

Fixpoint stage_rows (stages : list JSValue) : option (list StageRow) :=
  match stages with
  | [] => Some []
  | st :: rest =>
      match stage_row st, stage_rows rest with
      | Some r, Some rs => Some (r :: rs)
      | _, _ => None
      end
  end.

(** [{progress.stages && (<div>{progress.stages.map(...)}</div>)}]: a
    falsy value is the child itself. *)
Inductive StageList : Type :=
| Falsy (v : JSValue)
| Rows (rows : list StageRow).

(** [progress.current_stage?.replace('_', ' ').toUpperCase()]; the case
    conversion is kept symbolic. *)
Inductive Badge : Type :=
| NoBadge
| UpperCase (s : string).

Record ProgressView : Type := mkProgressView {
  overall : JSValue;
  badge : Badge;
  stage_list : StageList
}.

(** The progress card (lines 247-315 of the page), shown when [progress]
    is truthy; [None] when rendering throws. *)
Definition render_progress (progress : JSValue) : option ProgressView :=
  match get_prop progress "overall_progress",
        get_prop progress "current_stage", get_prop progress "stages" with
  | Some pct, Some cs, Some stages =>
      match (if nullish cs then Some NoBadge
             else match cs with
                  | JStr name => Some (UpperCase (replace_underscore name))
                  | _ => None
                  end) with
      | Some b =>
          if truthy stages then
            match stages with
            | JArr items =>
                match stage_rows items with
                | Some rows => Some (mkProgressView pct b (Rows rows))
                | None => None
                end
            | _ => None
            end
          else Some (mkProgressView pct b (Falsy stages))
      | None => None
      end
  | _, _, _ => None
  end.

(** The properties of [progress] the card reads. *)
Definition progress_fields : list string :=
  ["overall_progress"; "current_stage"; "stages"].

(** [handleProgressUpdate]: the page keeps the last payload it was given. *)
Definition progress (s : Recorder.State) : JSValue :=
  List.last (Recorder.progressUpdates s) JNull.

End Home.

(** ** The task registry and the pipeline state machine

    The server is no part of the sources at hand; the client only sees its
    answers.  The Task record, the registry operations and the orchestrator
    transitions below follow sections 3, 4.1, 4.5 and 5 of the
    specification. *)

Module Registry.

Inductive Status : Type := queued | running | completed | failed.

Inductive Stage : Type :=
| s_received
| s_converting_audio
| s_transcribing
| s_extracting_entities
| s_completed
| s_error.

Record StageEvent : Type := mkStageEvent {
  stage_name : Stage;
  message : string;
  timestamp : nat
}.

Record Result : Type := mkResult {
  transcript : string;
  confidence : Q;
  duration_seconds : Q;
  diagnoses : list string;
  treatments : list string;
  processing_time_seconds : Q
}.

Record ErrorDetail : Type := mkErrorDetail {
  error_message : string;
  failed_stage : Stage
}.

(** Modelled from the spec: the Task record of section 3 (the server's
    task store is missing from the sources). *)
Record Task : Type := mkTask {
  id : nat;
  status : Status;
  current_stage : Stage;
  overall_progress : nat;
  stage_history : list StageEvent;
  result : option Result;
  error_detail : option ErrorDetail;
  created_at : nat
}.

Inductive Error : Type := NotFound | InvalidTransition | ResourceExhausted.

Inductive Res (A : Type) : Type :=
| Ok (a : A)
| Err (e : Error).
Arguments Ok {A} a.
Arguments Err {A} e.

Definition bind {A B : Type} (x : Res A) (f : A -> Res B) : Res B :=
  match x with
  | Ok a => f a
  | Err e => Err e
  end.

(** Modelled from the spec: the Task Registry of section 4.1, a map from
    task id to Task with a bound on the number of identifiers. *)
Record Registry : Type := mkRegistry {
  tasks : gmap nat Task;
  next_id : nat;
  capacity : nat
}.

Definition empty (cap : nat) : Registry := mkRegistry ∅ 0 cap.

(** Modelled from the spec: the fixed stage-to-percentage mapping of
    [append_stage] with the values section 4.1 gives; it gives none for the
    [error] stage, where the percentage is left as it was. *)
Definition stage_percent (st : Stage) : option nat :=
  match st with
  | s_received => Some 5
  | s_converting_audio => Some 20
  | s_transcribing => Some 60
  | s_extracting_entities => Some 90
  | s_completed => Some 100
  | s_error => None
  end.

(** Modelled from the spec: [create() -> task_id], a new Task in [queued]
    state with an empty stage history, [ResourceExhausted] when no
    identifier is left. *)
Definition create (now : nat) (r : Registry) : Res (nat * Registry) :=
  if Nat.ltb (next_id r) (capacity r) then
    let i := next_id r in
    Ok (i, mkRegistry
             (<[i := mkTask i queued s_received 0 [] None None now]> (tasks r))
             (S i) (capacity r))
  else Err ResourceExhausted.

(** Modelled from the spec: [get(task_id)], [NotFound] if unknown. *)
Definition get (i : nat) (r : Registry) : Res Task :=
  match tasks r !! i with
  | Some t => Ok t
  | None => Err NotFound
  end.

Definition put (t : Task) (r : Registry) : Registry :=
  mkRegistry (<[id t := t]> (tasks r)) (next_id r) (capacity r).

(** Modelled from the spec: [append_stage(task_id, stage_name, message)]
    appends one entry, updates [current_stage] and recomputes
    [overall_progress]. *)
Definition append_stage (i : nat) (st : Stage) (msg : string) (now : nat)
    (r : Registry) : Res Registry :=
  bind (get i r) (fun t =>
    Ok (put (mkTask (id t) (status t) st
               (match stage_percent st with
                | Some p => p
                | None => overall_progress t
                end)
               (stage_history t ++ [mkStageEvent st msg now])
               (result t) (error_detail t) (created_at t)) r)).

Definition terminal (st : Status) : bool :=
  match st with
  | completed | failed => true
  | _ => false
  end.

(** Modelled from the spec: [complete(task_id, result)] sets
    [status=completed], [overall_progress=100] and stores the result;
    [InvalidTransition] on a terminal Task. *)
Definition complete (i : nat) (res : Result) (r : Registry) : Res Registry :=
  bind (get i r) (fun t =>
    if terminal (status t) then Err InvalidTransition
    else Ok (put (mkTask (id t) completed (current_stage t) 100
                    (stage_history t) (Some res) (error_detail t)
                    (created_at t)) r)).

(** Modelled from the spec: [fail(task_id, error_detail)] sets
    [status=failed] and stores the error detail, same failure conditions
    as [complete]. *)
Definition fail (i : nat) (d : ErrorDetail) (r : Registry) : Res Registry :=
  bind (get i r) (fun t =>
    if terminal (status t) then Err InvalidTransition
    else Ok (put (mkTask (id t) failed (current_stage t)
                    (overall_progress t) (stage_history t) (result t)
                    (Some d) (created_at t)) r)).

(** Modelled from the spec: the move from [queued] to [running] of section
    4.5, for which section 4.1 names no registry operation. *)
Definition mark_running (i : nat) (r : Registry) : Res Registry :=
  bind (get i r) (fun t =>
    Ok (put (mkTask (id t) running (current_stage t) (overall_progress t)
               (stage_history t) (result t) (error_detail t)
               (created_at t)) r)).

(** The labels of the transitions of section 4.5. *)
Inductive Transition : Type :=
| Submit
| NormalizeOk
| NormalizeFail (why : string)
| DecodeOk
| SttOk
| SttFail (why : string)
| ExtractOk (res : Result)
| ExtractFail (why : string).

(** Modelled from the spec: one call of the orchestrator into the
    registry.  Section 4.1 makes each call atomic and section 5 makes each
    mutation atomic with respect to readers: a reader can see the registry
    between any two calls. *)
Inductive Op : Type :=
| OpAppendStage (st : Stage) (msg : string)
| OpMarkRunning
| OpComplete (res : Result)
| OpFail (d : ErrorDetail).

Definition apply_op (i : nat) (op : Op) (now : nat) (r : Registry)
  : Res Registry :=
  match op with
  | OpAppendStage st msg => append_stage i st msg now r
  | OpMarkRunning => mark_running i r
  | OpComplete res => complete i res r
  | OpFail d => fail i d r
  end.

Definition fail_at (st : Stage) (why : string) : list Op :=
  [OpAppendStage s_error why; OpFail (mkErrorDetail why st)].

(** Modelled from the spec: the orchestrator's state machine of section
    4.5, as the registry calls each transition makes.  Every transition
    appends exactly one stage_history entry, and appends it before it moves
    the Task to the next state; a stage failure moves the Task to [failed];
    a transition that the table does not list is refused. *)
Definition plan (t : Task) (tr : Transition) : option (list Op) :=
  match status t, current_stage t, tr with
  | queued, _, Submit =>
      Some [OpAppendStage s_received "received"; OpMarkRunning]
  | running, s_received, NormalizeOk =>
      Some [OpAppendStage s_converting_audio "converting audio"]
  | running, s_converting_audio, NormalizeFail why =>
      Some (fail_at s_converting_audio why)
  | running, s_converting_audio, DecodeOk =>
      Some [OpAppendStage s_transcribing "transcribing"]
  | running, s_transcribing, SttOk =>
      Some [OpAppendStage s_extracting_entities "extracting entities"]
  | running, s_transcribing, SttFail why =>
      Some (fail_at s_transcribing why)
  | running, s_extracting_entities, ExtractOk res =>
      Some [OpAppendStage s_completed "completed"; OpComplete res]
  | running, s_extracting_entities, ExtractFail why =>
      Some (fail_at s_extracting_entities why)
  | _, _, _ => None
  end.

(** Modelled from the spec: the orchestrator next to the registry.  For
    each Task it is advancing it holds the registry calls that the
    transition under way has still to make (its transient working
    reference, section 3); Tasks advance independently of each other
    (section 5). *)
Record Orchestrator : Type := mkOrchestrator {
  registry : Registry;
  working : gmap nat (list Op)
}.

Definition start (cap : nat) : Orchestrator := mkOrchestrator (empty cap) ∅.

Definition work_left (i : nat) (o : Orchestrator) : list Op :=
  default [] (working o !! i).

(** Modelled from the spec: what the orchestrator does next: it accepts a
    submission, begins a transition of a Task that has none under way, or
    makes the next registry call of the transition under way for a Task. *)
Inductive Action : Type :=
| Create (now : nat)
| Begin (i : nat) (tr : Transition)
| Call (i : nat) (now : nat).

Definition act (a : Action) (o : Orchestrator) : Res Orchestrator :=
  match a with
  | Create now =>
      bind (create now (registry o)) (fun p =>
        Ok (mkOrchestrator (snd p) (working o)))
  | Begin i tr =>
      bind (get i (registry o)) (fun t =>
        match work_left i o, plan t tr with
        | [], Some ops =>
            Ok (mkOrchestrator (registry o) (<[i := ops]> (working o)))
        | _, _ => Err InvalidTransition
        end)
  | Call i now =>
      match work_left i o with
      | op :: rest =>
          bind (apply_op i op now (registry o)) (fun r' =>
            Ok (mkOrchestrator r' (<[i := rest]> (working o))))
      | [] => Err InvalidTransition
      end
  end.

Fixpoint acts (l : list Action) (o : Orchestrator) : Res Orchestrator :=
  match l with
  | [] => Ok o
  | a :: rest => bind (act a o) (acts rest)
  end.

(** Modelled from the spec: the observable points of the lifecycle, the
    registries a reader can see: the one after each registry call, those
    between the calls of one transition included. *)
Definition observable (r : Registry) : Prop :=
  exists cap l o, acts l (start cap) = Ok o /\ registry o = r.

(** A whole transition of Task [i]: begun, then both or the one of its
    registry calls made. *)
Definition advance (i : nat) (tr : Transition) (now : nat) : list Action :=
  match tr with
  | NormalizeOk | DecodeOk | SttOk => [Begin i tr; Call i now]
  | _ => [Begin i tr; Call i now; Call i now]
  end.

Definition sample_result : Result :=
  mkResult "diagnosed with otitis externa" (9 # 10) (inject_Z 3)
    ["otitis externa"] ["amoxicillin"] (3 # 2).

(** One Task, just created ... *)
Definition one_queued : list Action := [Create 0].

(** ... taken to the point where the [completed] stage entry is appended
    and [complete] is still to be called ... *)
Definition one_before_complete : list Action :=
  one_queued ++ advance 0 Submit 1 ++ advance 0 NormalizeOk 2
  ++ advance 0 DecodeOk 3 ++ advance 0 SttOk 4
  ++ [Begin 0 (ExtractOk sample_result); Call 0 5].

(** ... and through the whole pipeline. *)
Definition one_completed : list Action :=
  one_before_complete ++ [Call 0 5].

Definition registry_after (l : list Action) : Registry :=
  match acts l (start 8) with
  | Ok o => registry o
  | Err _ => empty 0
  end.

Definition stage_entries : list StageEvent :=
  [mkStageEvent s_received "received" 1;
   mkStageEvent s_converting_audio "converting audio" 2;
   mkStageEvent s_transcribing "transcribing" 3;
   mkStageEvent s_extracting_entities "extracting entities" 4;
   mkStageEvent s_completed "completed" 5].

Definition queued_task : Task :=
  mkTask 0 queued s_received 0 [] None None 0.

Definition before_complete_task : Task :=
  mkTask 0 running s_completed 100 stage_entries None None 0.

Definition completed_task : Task :=
  mkTask 0 completed s_completed 100 stage_entries (Some sample_result)
    None 0.

(** What holds of a Task at every observable point, given the registry
    calls the orchestrator has still to make for it. *)
Definition task_ok (t : Task) : Prop :=
  match status t with
  | completed =>
      overall_progress t = 100 /\ is_Some (result t)
      /\ error_detail t = None
  | failed =>
      overall_progress t < 100 /\ result t = None
      /\ is_Some (error_detail t)
  | queued =>
      overall_progress t < 100 /\ result t = None
      /\ error_detail t = None
  | running => result t = None /\ error_detail t = None
  end.

Fixpoint fits (st : Status) (p : nat) (ops : list Op) : Prop :=
  match ops with
  | [] => st = running -> p < 100
  | OpAppendStage sg _ :: rest =>
      let p' := match stage_percent sg with Some q => q | None => p end in
      (st = queued \/ st = running) /\ (st = queued -> p' < 100)
      /\ fits st p' rest
  | OpMarkRunning :: rest => st = queued /\ rest = []
  | OpComplete _ :: rest => st = running /\ rest = []
  | OpFail _ :: rest => st = running /\ p < 100 /\ rest = []
  end.

Definition orchestrator_ok (o : Orchestrator) : Prop :=
  (forall i t,
      tasks (registry o) !! i = Some t ->
      id t = i /\ i < next_id (registry o) /\ task_ok t
      /\ fits (status t) (overall_progress t) (work_left i o))
  /\ (forall i, tasks (registry o) !! i = None -> work_left i o = []).

End Registry.

(** ** Sample payloads and runs *)

Module Samples.

Import Recorder.

Definition chunk : Blob :=
  mkBlob [Byte.x1a; Byte.x45; Byte.xdf; Byte.xa3] "audio/webm;codecs=opus".

Definition empty_chunk : Blob := mkBlob [] "audio/webm;codecs=opus".

Definition stage_entry (name msg ts : string) : JSValue :=
  JObj [("stage", JStr name); ("message", JStr msg); ("timestamp", JStr ts)].

(** A progress answer of the shape the client reads. *)
Definition progress_with (status stage : string) (pct : Z) : JSValue :=
  JObj [("status", JStr status); ("current_stage", JStr stage);
        ("overall_progress", JNum (inject_Z pct));
        ("stages", JArr [stage_entry "received" "Audio received" "t0"])].

(** A progress answer of the shape section 6 of the specification gives,
    for a task that failed while transcribing. *)
Definition failed_progress : JSValue :=
  JObj [("status", JStr "failed"); ("current_stage", JStr "error");
        ("overall_progress", JNum (inject_Z 60));
        ("stage_history",
         JArr [stage_entry "received" "Audio received" "t0";
               stage_entry "error" "engine crashed" "t1"]);
        ("error_detail", JStr "engine crashed")].


Definition completed_progress : JSValue :=
  progress_with "completed" "completed" 100.

Definition two_stages : JSValue :=
  JArr [stage_entry "received" "Audio received" "t0";
        stage_entry "converting_audio" "Converting audio" "t1"].

(** A progress answer as section 6 of the specification shapes it, and
    the same answer with the stage events under [stages]. *)
Definition spec_progress : JSValue :=
  JObj [("status", JStr "running"); ("current_stage", JStr "converting_audio");
        ("overall_progress", JNum (inject_Z 20));
        ("stage_history", two_stages)].

Definition client_progress : JSValue :=
  JObj [("status", JStr "running"); ("current_stage", JStr "converting_audio");
        ("overall_progress", JNum (inject_Z 20));
        ("stages", two_stages)].

Definition client_rows : list Home.StageRow :=
  [Home.mkRow Home.IconBusy "received" (JStr "Audio received") (JStr "t0");
   Home.mkRow Home.IconBusy "converting audio" (JStr "Converting audio")
     (JStr "t1")].

Definition client_progress_view : Home.ProgressView :=
  Home.mkProgressView (JNum (inject_Z 20))
    (Home.UpperCase "converting audio") (Home.Rows client_rows).

(** A result as section 6 of the specification shapes it, and the same
    result with the two timings under the names the component reads. *)
Definition spec_result : JSValue :=
  JObj [("transcript", JStr "diagnosed with otitis externa");
        ("confidence", JNum (9 # 10));
        ("duration_seconds", JNum (inject_Z 3));
        ("diagnoses", JArr [JStr "otitis externa"]);
        ("treatments", JArr [JStr "amoxicillin"]);
        ("processing_time_seconds", JNum (3 # 2));
        ("task_id", JStr "t1")].

Definition client_result : JSValue :=
  JObj [("transcript", JStr "diagnosed with otitis externa");
        ("confidence", JNum (9 # 10));
        ("duration", JNum (inject_Z 3));
        ("diagnoses", JArr [JStr "otitis externa"]);
        ("treatments", JArr [JStr "amoxicillin"]);
        ("processing_time", JNum (3 # 2));
        ("task_id", JStr "t1")].

Definition upload_answer (taskId : string) : Outcome :=
  Resolved (JObj [("task_id", JStr taskId)]).

(** Record, stop, upload; the server answers with task id [t1].  The
    recorder is object 0, the upload request 1, the polling timer 2. *)
Definition submitted : list Event :=
  [ClickStart; UserMedia (MediaGranted true true);
   DataAvailable 0 chunk; DataAvailable 0 empty_chunk;
   ClickStop; DataAvailable 0 chunk; RecorderStop 0;
   Response 1 (upload_answer "t1")].

Definition after (evs : list Event) : State :=
  match run init evs with
  | Some s => s
  | None => init
  end.

(** The state after the upload was answered. *)
Definition submitted_state : State :=
  Eval vm_compute in after submitted.

(** The state in which the first progress request (request 3) is out. *)
Definition first_poll : State :=
  Eval vm_compute in after (submitted ++ [Tick 2]).

(** The first poll is answered [completed] before the next tick (the
    result query is request 4) ... *)
Definition first_poll_completed : State :=
  Eval vm_compute in
    after (submitted ++ [Tick 2; Response 3 (Resolved completed_progress)]).

(** ... the result arrives and the user starts the next recording. *)
Definition next_recording : list Event :=
  [Response 4 (Resolved client_result); ClickStart].

Definition next_recording_state : State :=
  Eval vm_compute in
    after (submitted ++
           [Tick 2; Response 3 (Resolved completed_progress)] ++
           next_recording).

(** The first poll fails before the next tick, then the user starts the
    next recording. *)
Definition first_poll_failed : State :=
  Eval vm_compute in
    after (submitted ++ [Tick 2; Response 3 (Rejected JUndefined)]).

Definition recording_after_failure : State :=
  Eval vm_compute in
    after (submitted ++
           [Tick 2; Response 3 (Rejected JUndefined); ClickStart]).

(** Two ticks pass before the first answer arrives; both polls then
    report [completed]. *)
Definition overlapping_completed : list Event :=
  submitted ++
  [Tick 2; Tick 2;
   Response 3 (Resolved completed_progress);
   Response 4 (Resolved completed_progress)].

(** Two ticks pass before the first answer arrives; the first poll fails,
    the second reports [completed]. *)
Definition overlapping_failure : list Event :=
  submitted ++
  [Tick 2; Tick 2;
   Response 3 (Rejected JUndefined);
   Response 4 (Resolved completed_progress)].

(** The first poll of [t1] fails while a second one is still out.  The
    user records again (recorder 5, upload 6); the late poll of [t1] fails
    during that upload; the upload is answered with [t2] (timer 7). *)
Definition stale_poll : list Event :=
  submitted ++
  [Tick 2; Tick 2; Response 3 (Rejected JUndefined);
   ClickStart; UserMedia (MediaGranted true true); DataAvailable 5 chunk;
   ClickStop; RecorderStop 5;
   Response 4 (Rejected JUndefined);
   Response 6 (upload_answer "t2")].

(** ... and records once more (recorder 8, upload 10, answered with [t3],
    timer 11) while [t2] is still polled. *)
Definition third_submission : list Event :=
  stale_poll ++
  [ClickStart; UserMedia (MediaGranted true true); DataAvailable 8 chunk;
   Tick 7; ClickStop; RecorderStop 8;
   Response 10 (upload_answer "t3")].

End Samples.

(** ** The polling contract as the client implements it *)

Module Contract.

Import Recorder.

(** What the amended polling contract calls a stopping answer: the request
    fails, the answer has no readable [status], or its status is
    [completed] or [error]. *)
Definition stops_polling (o : Outcome) : bool :=
  match o with
  | Rejected _ => true
  | Resolved progress =>
      match get_prop progress "status" with
      | None => true
      | Some st => is_str st "completed" || is_str st "error"
      end
  end.

(** A request that names task [t] in its URL. *)
Definition mentions (t : JSValue) (r : Request) : Prop :=
  r = GetProgress t \/ r = GetResults t.

(** Nothing of task [t] is left in the browser: no timer polls it and no
    request for it awaits its answer. *)
Definition idle_for (t : JSValue) (s : State) : Prop :=
  (forall i, ~ In (i, t) (timers s))
  /\ (forall rid r, In (rid, r) (pending s) -> ~ mentions t r).

(** Of task [t] only the request [k], a result query, is in flight. *)
Definition only_result_query (t : JSValue) (k : nat) (s : State) : Prop :=
  (forall i, ~ In (i, t) (timers s))
  /\ (forall rid r, In (rid, r) (pending s) -> mentions t r ->
                    rid = k /\ r = GetResults t).

(** Polls answered one at a time: a tick of timer [t], then the answer to
    the request that tick sent, for each answer of the list. *)
Fixpoint poll_rounds (t : nat) (answers : list Outcome) (s : State)
  : option State :=
  match answers with
  | [] => Some s
  | o :: rest =>
      match step s (Tick t) with
      | Some s1 =>
          match step s1 (Response (fresh s) o) with
          | Some s2 => poll_rounds t rest s2
          | None => None
          end
      | None => None
      end
  end.

(** The requests still in flight are among the requests sent, and every
    identifier in use is below the next fresh one. *)
Definition well_formed (s : State) : Prop :=
  incl (pending s) (log s)
  /\ (forall rid r, In (rid, r) (log s) -> rid < fresh s)
  /\ (forall i t, In (i, t) (timers s) -> i < fresh s).

(** Task id [t] was handed out by the server: some upload of the run was
    answered with a payload whose [task_id] is [t]. *)
Definition handed_out (evs : list Event) (s : State) (t : JSValue) : Prop :=
  exists rid form ct d,
    In (rid, PostTranscribe form ct) (log s)
    /\ In (Response rid (Resolved d)) evs
    /\ get_prop d "task_id" = Some t.

(** Chunk [c] was delivered by a recorder and is not empty. *)
Definition recorded (evs : list Event) (c : Blob) : Prop :=
  0 < blob_size c /\ exists r, In (DataAvailable r c) evs.

End Contract.

(** ** The connection test page (the first component of
    pages/test-connection.tsx) *)

Module TestConnection.

(** How [await fetch(url)] followed by [await response.json()] ends: the
    fetch rejects; or a response arrives, with its [ok] flag, and its body
    parses ([Some]) or [json()] rejects ([None]). *)
Inductive Fetched : Type :=
| FetchRejected
| FetchResponse (ok : bool) (body : option JSValue).

Record State : Type := mkState {
  backendStatus : string;
  testResults : JSValue
}.

Definition init : State := mkState "checking" JNull.

Definition setBackendStatus (v : string) (s : State) : State :=
  mkState v (testResults s).

Definition setTestResults (v : JSValue) (s : State) : State :=
  mkState (backendStatus s) v.

(** The effect [testConnection] (lines 8-39), run once when the page is
    mounted: the state after each of its updates, in order.  [health] and
    [test] are how the two requests end ([test] is only looked at when the
    second request is made), [now] is [new Date().toISOString()]. *)
Definition testConnection (health test : Fetched) (now : string)
    (s : State) : list State :=
  match health with
  | FetchResponse ok (Some healthData) =>
      if ok then
        let s1 := setBackendStatus "connected" s in
        match test with
        | FetchResponse _ (Some testData) =>
            [s1;
             setTestResults
               (JObj [("health", healthData); ("test", testData);
                      ("timestamp", JStr now)]) s1]
        | _ => [s1; setBackendStatus "error" s1]
        end
      else [setBackendStatus "error" s]
  | _ => [setBackendStatus "error" s]
  end.

(** The state the page settles in. *)
Definition settled (health test : Fetched) (now : string) : State :=
  List.last (testConnection health test now init) init.

(** The three status blocks (lines 51-72), each shown when
    [backendStatus] equals its literal. *)
Inductive StatusBlock : Type := Checking | Connected | ConnectionFailed.

Definition status_blocks (s : State) : list StatusBlock :=
  (if String.eqb (backendStatus s) "checking" then [Checking] else [])
  ++ (if String.eqb (backendStatus s) "connected" then [Connected] else [])
  ++ (if String.eqb (backendStatus s) "error" then [ConnectionFailed]
      else []).

(** The test results card (lines 77-99), shown when [testResults] is
    truthy: the values handed to [JSON.stringify] and the timestamp. *)
Record ResultsCard : Type := mkCard {
  card_health : JSValue;
  card_test : JSValue;
  card_timestamp : JSValue
}.

Definition results_card (s : State) : option ResultsCard :=
  if truthy (testResults s) then
    match get_prop (testResults s) "health", get_prop (testResults s) "test",
          get_prop (testResults s) "timestamp" with
    | Some h, Some t, Some ts => Some (mkCard h t ts)
    | _, _, _ => None
    end
  else None.

End TestConnection.

(** ** The Home page: what it keeps of the recorder's callbacks *)

Module Page.

(** [handleTranscriptionComplete]: the page keeps the last result it was
    given. *)
Definition transcriptionResult (s : Recorder.State) : JSValue :=
  List.last (Recorder.completions s) JNull.

(** [{progress && (...)}] and [{transcriptionResult && (...)}] *)
Definition shows_progress (s : Recorder.State) : bool :=
  truthy (Home.progress s).

Definition shows_result (s : Recorder.State) : bool :=
  truthy (transcriptionResult s).

End Page.

(** ** Runs described by their events *)

Module Causes.

Import Recorder.

(** The chunks a run leaves in [audioChunksRef]: emptied whenever a
    recorder is set up, extended by every delivered chunk that is not
    empty. *)
Fixpoint kept_chunks (acc : list Blob) (evs : list Event) : list Blob :=
  match evs with
  | [] => acc
  | UserMedia (MediaGranted _ _) :: rest => kept_chunks [] rest
  | DataAvailable _ d :: rest =>
      kept_chunks (if Nat.ltb 0 (blob_size d) then acc ++ [d] else acc) rest
  | _ :: rest => kept_chunks acc rest
  end.

Definition is_tick (e : Event) : bool :=
  match e with Tick _ => true | _ => false end.

Definition is_recorder_stop (e : Event) : bool :=
  match e with RecorderStop _ => true | _ => false end.

Definition is_response (e : Event) : bool :=
  match e with Response _ _ => true | _ => false end.

Definition is_upload (r : Request) : bool :=
  match r with PostTranscribe _ _ => true | _ => false end.

Definition is_progress_query (r : Request) : bool :=
  match r with GetProgress _ => true | _ => false end.

Definition is_result_query (r : Request) : bool :=
  match r with GetResults _ => true | _ => false end.

Definition count {A : Type} (p : A -> bool) (l : list A) : nat :=
  length (List.filter p l).

(** A progress poll of the run was answered [completed] for task [t]. *)
Definition answered_completed (evs : list Event) (s : State) (t : JSValue)
  : Prop :=
  exists rid p,
    In (rid, GetProgress t) (log s)
    /\ In (Response rid (Resolved p)) evs
    /\ get_prop p "status" = Some (JStr "completed").

(** Payload [d] is the server's answer to a request of the run that
    satisfies [kind]. *)
Definition answer_to (kind : Request -> bool) (evs : list Event)
    (s : State) (d : JSValue) : Prop :=
  exists rid r,
    In (rid, r) (log s) /\ kind r = true
    /\ In (Response rid (Resolved d)) evs.

End Causes.

(** ** The requests of one job *)

Module Jobs.

Import Recorder.

Definition reports_completed (p : JSValue) : bool :=
  match get_prop p "status" with
  | Some st => is_str st "completed"
  | None => false
  end.

Definition out_as_progress_query (k : nat) (s : State) : bool :=
  match assoc k (pending s) with
  | Some (GetProgress _) => true
  | _ => false
  end.

(** A job is one answered upload; its answer sets up one polling timer.
    Event [e] makes the client send a request of the job polled by timer
    [j] when it is a tick of [j], or the answer [completed] to a progress
    query of the job that is still out; [acc] holds the identifiers of the
    job's requests so far. *)
Definition job_request (j : nat) (s : State) (e : Event) (acc : list nat)
  : bool :=
  match e with
  | Tick i => Nat.eqb i j
  | Response k (Resolved p) =>
      existsb (Nat.eqb k) acc && out_as_progress_query k s
      && reports_completed p
  | _ => false
  end.

(** The requests of the job polled by timer [j], read off the events of
    the run from [s]: a request is named by its identifier, the value of
    [fresh] when it is sent. *)
Fixpoint job_requests (j : nat) (s : State) (evs : list Event)
    (acc : list nat) : list nat :=
  match evs with
  | [] => acc
  | e :: rest =>
      match step s e with
      | Some s' =>
          job_requests j s' rest
            (if job_request j s e acc then acc ++ [fresh s] else acc)
      | None => acc
      end
  end.

(** No two requests of the log share an identifier. *)
Definition unique_ids (s : State) : Prop :=
  forall k r r', In (k, r) (log s) -> In (k, r') (log s) -> r = r'.

(** The second job of [Samples.stale_poll]: the state in which its upload
    (request 6) is out, the state after the answer [t2], and two events of
    its polling. *)
Definition second_upload_out : State :=
  Eval vm_compute in Samples.after (removelast Samples.stale_poll).

Definition second_job_started : State :=
  Eval vm_compute in Samples.after Samples.stale_poll.

Definition second_job_polled : list Event :=
  [Tick 7; Response 8 (Resolved Samples.completed_progress)].

Definition second_job_completed : State :=
  Eval vm_compute in Samples.after (Samples.stale_poll ++ second_job_polled).

End Jobs.

(** ** When rendering throws *)

Module Throws.


Definition is_string (v : JSValue) : bool :=
  match v with JStr _ => true | _ => false end.






Fixpoint has_underscore (s : string) : bool :=
  match s with
  | EmptyString => false
  | String c rest => Ascii.eqb c "_"%char || has_underscore rest
  end.



End Throws.

(** ** More sample runs *)

Module MoreSamples.

Import Recorder.

(** A recording: two chunks and an empty one are delivered, the last one
    after the click on stop. *)
Definition recording : list Event :=
  [ClickStart; UserMedia (MediaGranted true true);
   DataAvailable 0 Samples.chunk; DataAvailable 0 Samples.empty_chunk;
   ClickStop; DataAvailable 0 Samples.chunk].

Definition recorded_state : State :=
  Eval vm_compute in Samples.after recording.

Definition uploading_state : State :=
  Eval vm_compute in Samples.after (recording ++ [RecorderStop 0]).

(** The first task is polled once, is complete and its result is shown
    ... *)
Definition result_shown : State :=
  Eval vm_compute in
    Samples.after
      (Samples.submitted ++
       [Tick 2; Response 3 (Resolved Samples.completed_progress);
        Response 4 (Resolved Samples.client_result)]).

(** ... and the user records and stops again (recorder 5). *)
Definition next_take : list Event :=
  [ClickStart; UserMedia (MediaGranted true true);
   DataAvailable 5 Samples.chunk; ClickStop; RecorderStop 5].

(** A recorder on the browser's default codec is recording, and is
    stopped. *)
Definition recording_default_codec : State :=
  Eval vm_compute in
    Samples.after [ClickStart; UserMedia (MediaGranted false true)].

Definition stopped_default_codec : State :=
  Eval vm_compute in
    Samples.after [ClickStart; UserMedia (MediaGranted false true);
                   ClickStop].

(** The upload of [recording] is rejected with an error body, and is
    answered with an empty object. *)
Definition unsupported : JSValue :=
  JObj [("data", JObj [("detail", JStr "Unsupported audio format")])].

Definition upload_rejected : State :=
  Eval vm_compute in
    Samples.after
      (recording ++ [RecorderStop 0; Response 1 (Rejected unsupported)]).

Definition upload_answered_empty : State :=
  Eval vm_compute in
    Samples.after
      (recording ++ [RecorderStop 0; Response 1 (Resolved (JObj []))]).



(** Three polls of [t1], each answered [failed] before the next tick. *)
Definition three_failed_answers : list Outcome :=
  repeat (Resolved Samples.failed_progress) 3.

End MoreSamples.

(** * Properties *)

Import Recorder Contract.

(** ** Auxiliary facts *)

Lemma is_str_true (v : JSValue) (lit : string) :
  is_str v lit = true <-> v = JStr lit.
Proof.
  destruct v; simpl; split; try discriminate.
  - intros H. apply String.eqb_eq in H. now subst.
  - intros [= ->]. apply String.eqb_refl.
Qed.

Lemma assoc_remove_key {A : Type} (k : nat) (l : list (nat * A)) :
  assoc k (remove_key k l) = None.
Proof.
  induction l as [|[i x] l IH]; simpl; [reflexivity|].
  destruct (Nat.eqb i k) eqn:E; simpl; [assumption|].
  now rewrite E.
Qed.

Lemma polling_clearInterval (s : State) :
  polling (clearInterval (progressIntervalRef s) s) = false.
Proof.
  unfold polling, clearInterval, timer_live.
  destruct (progressIntervalRef s) as [t|] eqn:E; simpl; [|now rewrite E].
  rewrite E. now rewrite assoc_remove_key.
Qed.

Lemma polling_onProgressUpdate (p : JSValue) (s : State) :
  polling (onProgressUpdate p s) = polling s.
Proof. reflexivity. Qed.

Lemma polling_poll_catch (s : State) : polling (poll_catch s) = false.
Proof. exact (polling_clearInterval s). Qed.

Lemma polling_send (r : Request) (s : State) :
  polling (send r s) = polling s.
Proof. reflexivity. Qed.

(** ** The polling loop *)

(** C1, as the code has it: when the answer to a progress poll arrives
    while the interval is running, the interval is cleared if and only if
    the poll failed or the answer's status is [completed] or [error];
    on every other answer, [failed] included, the loop goes on. *)
Theorem poll_stops_iff (s s' : State) (rid : nat) (taskId : JSValue)
    (o : Outcome) :
  assoc rid (pending s) = Some (GetProgress taskId) ->
  polling s = true ->
  step s (Response rid o) = Some s' ->
  (polling s' = false <-> stops_polling o = true).
Proof.
  intros Hp Hpoll Hstep. unfold step in Hstep. rewrite Hp in Hstep.
  injection Hstep as <-.
  set (s0 := set_pending (remove_key rid (pending s)) s).
  assert (H0 : polling s0 = true) by exact Hpoll.
  destruct o as [progress|e]; unfold poll_progress_settled, stops_polling;
    cbv zeta; [|now rewrite polling_poll_catch].
  destruct (get_prop progress "status") as [st|];
    [|now rewrite polling_poll_catch].
  destruct (is_str st "completed").
  - rewrite polling_send.
    now rewrite (polling_clearInterval (onProgressUpdate progress s0)).
  - destruct (is_str st "error"); cbn [orb].
    + destruct (get_prop progress "current_stage");
        [|now rewrite polling_poll_catch].
      split; [reflexivity|intros _].
      exact (polling_clearInterval (onProgressUpdate progress s0)).
    + rewrite polling_onProgressUpdate, H0. split; discriminate.
Qed.

Lemma poll_stops_iff_witness :
  polling
    (Samples.after
       (Samples.submitted ++
        [Tick 2; Response 3 (Resolved (Samples.progress_with "error" "error" 60))]))
  = false
  <-> stops_polling (Resolved (Samples.progress_with "error" "error" 60)) = true.
Proof.
  apply (poll_stops_iff Samples.first_poll _ 3 (JStr "t1")); reflexivity.
Defined.

(** C1 as the specification words it does not hold: a task reported as
    [failed] leaves the client polling (and still "processing"), while a
    poll that throws stops the loop although neither [completed] nor
    [failed] was observed. *)
Lemma failed_status_keeps_polling :
  get_prop Samples.failed_progress "status" = Some (JStr "failed")
  /\ (let s := Samples.after
                 (Samples.submitted ++
                  [Tick 2; Response 3 (Resolved Samples.failed_progress)]) in
      polling s = true /\ isProcessing s = true /\ error s = JNull)
  /\ (let s := Samples.after
                 (Samples.submitted ++
                  [Tick 2; Response 3 (Rejected JUndefined)]) in
      polling s = false /\ progressUpdates s = []).
Proof. vm_compute. repeat split. Qed.

(** ** One step at a time *)

Ltac break_step H :=
  repeat match type of H with
    | context [match ?x with _ => _ end] =>
        destruct x eqn:?; try discriminate H
    end;
  try (injection H as <-).

Lemma assoc_In {A : Type} (k : nat) (x : A) (l : list (nat * A)) :
  assoc k l = Some x -> In (k, x) l.
Proof.
  induction l as [|[i y] l IH]; simpl; [discriminate|].
  destruct (Nat.eqb i k) eqn:E.
  - apply Nat.eqb_eq in E. intros [= ->]. subst. now left.
  - intros H. right. now apply IH.
Qed.

Lemma In_remove_key {A : Type} (k : nat) (p : nat * A) (l : list (nat * A)) :
  In p (remove_key k l) -> In p l.
Proof. unfold remove_key. intros H. now apply filter_In in H. Qed.

(** Every step appends at most one request to the log, under the fresh
    identifier. *)
Ltac unfold_handlers :=
  unfold stopRecording, startRecording, startRecording_settled,
    ondataavailable, onstop, processAudio, interval_callback,
    processAudio_settled, processAudio_catch, poll_progress_settled,
    poll_results_settled, poll_catch, pollProgress, send, clearInterval,
    set_rec_state in *;
  cbv zeta in *.

Ltac break_goal :=
  repeat match goal with
    | |- context [match ?x with _ => _ end] => destruct x eqn:?
    end.

(** Case analysis on an enabled step: one goal per path through the
    handler that ran. *)
Ltac state_simpl :=
  cbn [isRecording isProcessing currentTaskId error progressIntervalRef
       mediaRecorderRef audioChunksRef timers recorders pendingMedia
       pending fresh log progressUpdates completions
       setIsRecording setIsProcessing setCurrentTaskId setError
       set_progressIntervalRef set_mediaRecorderRef set_audioChunksRef
       set_timers set_recorders set_pendingMedia set_pending set_fresh
       set_log onProgressUpdate onTranscriptionComplete] in *.

Ltac step_cases H :=
  unfold step in H; break_step H; unfold_handlers; break_goal; state_simpl.

Lemma step_log (s s' : State) (e : Event) :
  step s e = Some s' ->
  log s' = log s
  \/ exists r, log s' = log s ++ [(fresh s, r)] /\ In (fresh s, r) (pending s').
Proof.
  intros H. destruct e as [| |mo|r data|r|t|rid o]; step_cases H;
    try (left; reflexivity);
    right; eexists; (split; [reflexivity|]);
    apply in_or_app; right; now left.
Qed.


Ltac in_cases :=
  repeat match goal with
    | H : In _ (_ ++ _) |- _ => apply in_app_or in H; destruct H as [H|H]
    | H : In _ (remove_key _ _) |- _ => apply In_remove_key in H
    | H : In _ (_ :: _) |- _ => destruct H as [H|H]
    | H : In _ [] |- _ => destruct H
    | H : (_, _) = (_, _) |- _ => injection H as ? ?; subst
    end.

Lemma well_formed_init : well_formed init.
Proof. repeat split; intros x; simpl; try intros ? []; intros []. Qed.

Lemma step_well_formed (s s' : State) (e : Event) :
  well_formed s -> step s e = Some s' -> well_formed s'.
Proof.
  intros (Hp & Hl & Ht) H.
  assert (Hp' : forall rid r, In (rid, r) (pending s) -> rid < fresh s)
    by (intros rid r Hin; apply (Hl rid r), Hp, Hin).
  destruct e as [| |mo|r data|r|t|rid o]; step_cases H;
    (split; [|split]); state_simpl;
    try assumption;
    try (intros [k x] Hin); try (intros k x Hin);
    in_cases;
    repeat match goal with
      | |- In _ (_ ++ _) => apply in_or_app
      end;
    try (left; apply Hp; assumption);
    try (right; left; reflexivity);
    try (apply Hp; assumption);
    try (specialize (Hl _ _ Hin); lia);
    try (specialize (Ht _ _ Hin); lia);
    try lia.
Qed.

Lemma run_app (s : State) (evs1 evs2 : list Event) :
  run s (evs1 ++ evs2) =
  match run s evs1 with
  | Some s1 => run s1 evs2
  | None => None
  end.
Proof.
  revert s. induction evs1 as [|e evs1 IH]; intros s; simpl; [reflexivity|].
  destruct (step s e); [apply IH|reflexivity].
Qed.

Lemma run_well_formed (s s' : State) (evs : list Event) :
  well_formed s -> run s evs = Some s' -> well_formed s'.
Proof.
  revert s. induction evs as [|e evs IH]; intros s Hwf H; simpl in H.
  - now injection H as <-.
  - destruct (step s e) as [s1|] eqn:E; [|discriminate].
    apply (IH s1); [|assumption]. now apply (step_well_formed s s1 e).
Qed.

(** A step keeps an idle task idle and sends nothing for it, unless it is
    the answer to an upload that hands out the same task id again. *)
Lemma step_idle (t : JSValue) (s s' : State) (e : Event) :
  idle_for t s ->
  step s e = Some s' ->
  (forall rid d form ct,
      e = Response rid (Resolved d) ->
      assoc rid (pending s) = Some (PostTranscribe form ct) ->
      get_prop d "task_id" <> Some t) ->
  idle_for t s'
  /\ (forall rid r, In (rid, r) (log s') -> In (rid, r) (log s) \/ ~ mentions t r).
Proof.
  intros [Ht Hpend] H Hnew.
  destruct e as [| |mo|r data|r|tm|rid o]; step_cases H;
    (split; [split|]); state_simpl;
    try assumption; try (intros k x Hin); try (intros k Hin);
    try (left; assumption);
    in_cases;
    try (left; assumption);
    try (eapply Ht; eassumption);
    try (eapply Hpend; eassumption);
    try right;
    try (intros [Hm|Hm]; try discriminate Hm; injection Hm as ->);
    try (eapply Hnew; [reflexivity|eassumption|assumption]);
    repeat match goal with
      | Ha : assoc _ _ = Some _ |- _ => apply assoc_In in Ha
      end;
    try (eapply Ht; eassumption);
    try (eapply Hpend; [eassumption|left; reflexivity]).
Qed.

Lemma run_log_incl (s s' : State) (evs : list Event) :
  run s evs = Some s' -> incl (log s) (log s').
Proof.
  revert s. induction evs as [|e evs IH]; intros s H; simpl in H.
  - injection H as <-. apply incl_refl.
  - destruct (step s e) as [s1|] eqn:E; [|discriminate].
    apply incl_tran with (log s1); [|now apply IH].
    destruct (step_log s s1 e E) as [->|(r & -> & _)];
      [apply incl_refl|apply incl_appl, incl_refl].
Qed.

(** Once a task is idle, no continuation of the run sends a request for
    it, as long as no upload is answered with its task id again. *)
Lemma run_idle (t : JSValue) (evs : list Event) (s s' : State) :
  well_formed s ->
  idle_for t s ->
  run s evs = Some s' ->
  (forall rid d form ct,
      In (Response rid (Resolved d)) evs ->
      In (rid, PostTranscribe form ct) (log s') ->
      get_prop d "task_id" <> Some t) ->
  idle_for t s'
  /\ (forall rid r, In (rid, r) (log s') -> mentions t r -> In (rid, r) (log s)).
Proof.
  revert s. induction evs as [|e evs IH]; intros s Hwf Hidle H Hnew;
    simpl in H.
  - injection H as <-. split; [assumption|auto].
  - destruct (step s e) as [s1|] eqn:E; [|discriminate].
    assert (Hincl : incl (log s1) (log s')) by now apply (run_log_incl s1 s' evs).
    destruct (step_idle t s s1 e Hidle E) as [Hidle1 Hlog1].
    { intros rid d form ct -> Hp. apply (Hnew rid d form ct); [now left|].
      apply Hincl. destruct (step_log s s1 _ E) as [->|(r & -> & _)];
        [|apply in_or_app; left]; apply Hwf; eapply assoc_In; eassumption. }
    destruct (IH s1) as [Hidle' Hlog']; try assumption.
    + now apply (step_well_formed s s1 e).
    + intros rid d form ct Hin. apply Hnew. now right.
    + split; [assumption|]. intros rid r Hin Hm.
      destruct (Hlog1 rid r (Hlog' rid r Hin Hm)) as [?|Hn];
        [assumption|contradiction].
Qed.






(** ** Overlapping polls *)

(** What the [completed] branch does by itself: it clears the interval and
    sends one result query for the polled task. *)
Lemma completed_sends_result_query (s s' : State) (rid : nat)
    (taskId progress : JSValue) :
  assoc rid (pending s) = Some (GetProgress taskId) ->
  get_prop progress "status" = Some (JStr "completed") ->
  step s (Response rid (Resolved progress)) = Some s' ->
  log s' = log s ++ [(fresh s, GetResults taskId)] /\ polling s' = false.
Proof.
  intros Hp Hst Hstep. unfold step in Hstep. rewrite Hp in Hstep.
  injection Hstep as <-. unfold poll_progress_settled. cbv zeta.
  rewrite Hst. change (is_str (JStr "completed") "completed") with true.
  cbv iota. split.
  - unfold send, clearInterval. state_simpl.
    now destruct (progressIntervalRef s).
  - rewrite polling_send.
    exact (polling_clearInterval
             (onProgressUpdate progress
                (set_pending (remove_key rid (pending s)) s))).
Qed.

(** C5 on the code: the interval callback is asynchronous, so a second
    tick can start a poll before the first one is answered.  When both
    answers report [completed], each callback sends its own result query:
    the run below ends with two result queries for task [t1]. *)
Theorem overlapping_polls_two_result_queries :
  exists s,
    run init Samples.overlapping_completed = Some s
    /\ count_progress "t1" s = 2
    /\ count_results "t1" s = 2
    /\ pending s = [(5, GetResults (JStr "t1")); (6, GetResults (JStr "t1"))].
Proof. eexists. vm_compute. repeat split. Qed.

(** C8 on the code: a poll fails while another poll of the same task is
    still out.  The failure clears the interval and shows "Failed to get
    progress"; the answer to the other poll then reports [completed] and
    its callback sends a result query for that task all the same. *)
Theorem result_query_after_poll_failure :
  exists s1 s2,
    run init (removelast Samples.overlapping_failure) = Some s1
    /\ error s1 = JStr "Failed to get progress"
    /\ polling s1 = false
    /\ count_results "t1" s1 = 0
    /\ step s1 (Response 4 (Resolved Samples.completed_progress)) = Some s2
    /\ count_results "t1" s2 = 1
    /\ pending s2 = [(5, GetResults (JStr "t1"))].
Proof. do 2 eexists. vm_compute. repeat split. Qed.

(** ** One task at a time *)

(** While [isProcessing] holds both buttons are disabled and no click
    happens. *)
Lemma controls_disabled_while_processing (s : State) :
  isProcessing s = true ->
  start_disabled s = true /\ stop_disabled s = true
  /\ step s ClickStart = None /\ step s ClickStop = None.
Proof.
  intros H. unfold step, start_disabled, stop_disabled. rewrite H.
  rewrite !orb_true_r. repeat split.
Qed.

(** Each way a poll ends resets [currentTaskId] and [isProcessing]. *)
Lemma poll_end_resets (s s' : State) (rid : nat) (req : Request)
    (o : Outcome) :
  assoc rid (pending s) = Some req ->
  step s (Response rid o) = Some s' ->
  match req with
  | PostTranscribe _ _ => True
  | GetProgress _ =>
      stops_polling o = true ->
      (exists p, o = Resolved p
                 /\ get_prop p "status" = Some (JStr "completed"))
      \/ (currentTaskId s' = JNull /\ isProcessing s' = false)
  | GetResults _ => currentTaskId s' = JNull /\ isProcessing s' = false
  end.
Proof.
  intros Hp Hstep. unfold step in Hstep. rewrite Hp in Hstep.
  injection Hstep as <-. destruct req as [form ct|t|t]; [exact I| |].
  - unfold stops_polling, poll_progress_settled. cbv zeta.
    destruct o as [p|e]; [|intros _; right; split; reflexivity].
    destruct (get_prop p "status") as [st|] eqn:Est;
      [|intros _; right; split; reflexivity].
    destruct (is_str st "completed") eqn:Ec.
    + intros _. left. exists p. split; [reflexivity|].
      apply is_str_true in Ec. now subst.
    + destruct (is_str st "error"); [|discriminate].
      intros _. right.
      destruct (get_prop p "current_stage"); split; reflexivity.
  - unfold poll_results_settled. destruct o; split; reflexivity.
Qed.

(** C10 on the code: a poll of [t1] that is still out when polling of
    [t1] has ended comes back during the next upload and resets
    [isProcessing].  The upload is then answered with [t2]: the client now
    polls [t2] with [isProcessing] false and the start button enabled, and
    a further recording is submitted and polled ([t3]) while [t2] is still
    in flight. *)
Theorem stale_poll_allows_second_task :
  exists s1 s2,
    run init Samples.stale_poll = Some s1
    /\ currentTaskId s1 = JStr "t2"
    /\ isProcessing s1 = false
    /\ start_disabled s1 = false
    /\ timers s1 = [(7, JStr "t2")]
    /\ run init Samples.third_submission = Some s2
    /\ timers s2 = [(7, JStr "t2"); (11, JStr "t3")]
    /\ pending s2 = [(9, GetProgress (JStr "t2"))]
    /\ length (List.filter
                 (fun r => match r with PostTranscribe _ _ => true
                                      | _ => false end)
                 (requests s2)) = 3.
Proof. do 2 eexists. vm_compute. repeat split. Qed.

(** ** What is uploaded *)

Lemma run_snoc (s s' : State) (evs : list Event) (e : Event) :
  run s (evs ++ [e]) = Some s' ->
  exists s1, run s evs = Some s1 /\ step s1 e = Some s'.
Proof.
  rewrite run_app. destruct (run s evs) as [s1|]; [|discriminate].
  simpl. destruct (step s1 e) as [s2|] eqn:E; [|discriminate].
  intros [= <-]. now exists s1.
Qed.

(** ** The task id *)

(** What [processAudio] does when the upload is answered: the [task_id] of
    the payload becomes [currentTaskId] and the closure of the new polling
    timer. *)
Lemma upload_answer_starts_polling (s s' : State) (rid : nat)
    (form : FormData) (ct : string) (d t : JSValue) :
  assoc rid (pending s) = Some (PostTranscribe form ct) ->
  get_prop d "task_id" = Some t ->
  step s (Response rid (Resolved d)) = Some s' ->
  currentTaskId s' = t
  /\ timers s' = timers s ++ [(fresh s, t)]
  /\ progressIntervalRef s' = Some (fresh s)
  /\ log s' = log s.
Proof.
  intros Hp Hd Hstep. unfold step in Hstep. rewrite Hp in Hstep.
  injection Hstep as <-. unfold processAudio_settled. rewrite Hd.
  repeat split.
Qed.

Lemma step_task_ids (P : JSValue -> Prop) (s s' : State) (e : Event) :
  well_formed s ->
  step s e = Some s' ->
  (forall i t, In (i, t) (timers s) -> P t) ->
  (forall rid r t, In (rid, r) (pending s) -> mentions t r -> P t) ->
  (forall rid d form ct t,
      e = Response rid (Resolved d) ->
      In (rid, PostTranscribe form ct) (log s) ->
      get_prop d "task_id" = Some t -> P t) ->
  (forall i t, In (i, t) (timers s') -> P t)
  /\ (forall rid r t, In (rid, r) (pending s') -> mentions t r -> P t)
  /\ (forall rid r t,
        In (rid, r) (log s') -> mentions t r -> In (rid, r) (log s) \/ P t)
  /\ (currentTaskId s' = currentTaskId s \/ currentTaskId s' = JNull
      \/ P (currentTaskId s')).
Proof.
  intros (Hpl & _ & _) H Ht Hp Hnew.
  destruct e as [| |mo|r data|r|tm|rid o]; step_cases H;
    (split; [|split; [|split]]); state_simpl;
    try (left; reflexivity); try (right; left; reflexivity);
    try (intros k x y Hin Hm); try (intros k x Hin);
    in_cases;
    try (left; assumption);
    try (eapply Ht; eassumption);
    try (eapply Hp; eassumption);
    try (destruct Hm as [Hm|Hm]; discriminate Hm);
    try right;
    try (destruct Hm as [Hm|Hm]; try discriminate Hm; injection Hm as ->);
    try (right; right);
    repeat match goal with
      | Ha : assoc _ _ = Some _ |- _ => apply assoc_In in Ha
      end;
    try (eapply Ht; eassumption);
    try (eapply Hp; [eassumption|left; reflexivity]);
    try (eapply Hnew; [reflexivity|apply Hpl; eassumption|assumption]);
    try (right; eapply Hnew; [reflexivity|apply Hpl; eassumption|assumption]).
Qed.

Lemma handed_out_mono (evs : list Event) (e : Event) (s s' : State)
    (t : JSValue) :
  incl (log s) (log s') ->
  handed_out evs s t -> handed_out (evs ++ [e]) s' t.
Proof.
  intros Hincl (rid & form & ct & d & Hl & He & Hd).
  exists rid, form, ct, d. repeat split; [now apply Hincl| |assumption].
  apply in_or_app. now left.
Qed.

Lemma step_log_incl (s s' : State) (e : Event) :
  step s e = Some s' -> incl (log s) (log s').
Proof. intros H. apply (run_log_incl s s' [e]). simpl. now rewrite H. Qed.

Lemma run_task_ids (evs : list Event) (s : State) :
  run init evs = Some s ->
  (forall i t, In (i, t) (timers s) -> handed_out evs s t)
  /\ (forall rid r t,
        In (rid, r) (log s) -> mentions t r -> handed_out evs s t)
  /\ (currentTaskId s = JNull \/ handed_out evs s (currentTaskId s)).
Proof.
  revert s. induction evs as [|e evs IH] using rev_ind; intros s H.
  - injection H as <-. split; [|split].
    + intros ? ? [].
    + intros ? ? ? [].
    + now left.
  - apply run_snoc in H. destruct H as (s1 & Hrun & Hstep).
    destruct (IH s1 Hrun) as (Ht & Hl & Hc).
    assert (Hwf : well_formed s1)
      by exact (run_well_formed init s1 evs well_formed_init Hrun).
    assert (Hincl : incl (log s1) (log s)) by exact (step_log_incl _ _ _ Hstep).
    assert (Hmono : forall t, handed_out evs s1 t ->
                              handed_out (evs ++ [e]) s t)
      by (intros t; apply handed_out_mono, Hincl).
    destruct (step_task_ids (handed_out (evs ++ [e]) s) s1 s e Hwf Hstep)
      as (Ht' & _ & Hl' & Hc').
    + intros i t Hin. apply Hmono. now apply (Ht i).
    + intros rid r t Hin Hm. apply Hmono. apply (Hl rid r); [|assumption].
      now apply Hwf.
    + intros rid d form ct t -> Hin Hd. exists rid, form, ct, d.
      repeat split; [now apply Hincl| |assumption].
      apply in_or_app. right. now left.
    + repeat split.
      * exact Ht'.
      * intros rid r t Hin Hm.
        destruct (Hl' rid r t Hin Hm) as [Hold|?]; [|assumption].
        apply Hmono. now apply (Hl rid r).
      * destruct Hc' as [->|[->|?]]; [|now left|now right].
        destruct Hc as [?|?]; [now left|right; now apply Hmono].
Qed.

(** ** What the page renders *)

Lemma get_prop_not_nullish (v : JSValue) (name : string) :
  nullish v = false -> get_prop v name = Some (opt_get v name).
Proof. destruct v; simpl; try discriminate; reflexivity. Qed.

Lemma get_prop_nullish (v : JSValue) (name : string) :
  nullish v = true -> get_prop v name = None.
Proof. destruct v; simpl; try discriminate; reflexivity. Qed.

Lemma get_prop_agree (v w : JSValue) (name : string) :
  get_prop w name = get_prop v name ->
  nullish v = false ->
  nullish w = false /\ opt_get w name = opt_get v name.
Proof.
  intros H Hv. destruct (nullish w) eqn:Hw.
  - rewrite (get_prop_nullish w name Hw) in H.
    now rewrite (get_prop_not_nullish v name Hv) in H.
  - split; [reflexivity|]. unfold opt_get. now rewrite H.
Qed.

Lemma stage_rows_spec (items : list JSValue) (rows : list Home.StageRow) :
  Home.stage_rows items = Some rows ->
  length rows = length items
  /\ forall i item,
       nth_error items i = Some item ->
       exists name,
         get_prop item "stage" = Some (JStr name)
         /\ nth_error rows i =
            Some (Home.mkRow (Home.stage_icon name)
                    (Home.replace_underscore name)
                    (opt_get item "message") (opt_get item "timestamp")).
Proof.
  revert rows. induction items as [|it items IH]; intros rows H; simpl in H.
  - injection H as <-. split; [reflexivity|]. intros [|i] item; discriminate.
  - destruct (Home.stage_row it) as [r|] eqn:Er; [|discriminate].
    destruct (Home.stage_rows items) as [rs|]; [|discriminate].
    injection H as <-. destruct (IH rs eq_refl) as [Hlen Hnth].
    split; [simpl; now rewrite Hlen|].
    intros [|i] item Hi; simpl in Hi; [|now apply Hnth].
    injection Hi as ->. unfold Home.stage_row in Er.
    destruct (nullish item) eqn:En.
    + now rewrite (get_prop_nullish item "stage" En) in Er.
    + rewrite !(get_prop_not_nullish item _ En) in Er.
      destruct (opt_get item "stage") as [| | | |name| |] eqn:Es;
        try discriminate.
      injection Er as <-. exists name. split; [|reflexivity].
      rewrite (get_prop_not_nullish item _ En). now rewrite Es.
Qed.

(** The page is handed every progress answer as it is. *)
Lemma progress_answer_reaches_page (s s' : State) (rid : nat)
    (taskId p : JSValue) :
  assoc rid (pending s) = Some (GetProgress taskId) ->
  step s (Response rid (Resolved p)) = Some s' ->
  Home.progress s' = p.
Proof.
  intros Hp Hstep. unfold step in Hstep. rewrite Hp in Hstep.
  injection Hstep as <-. unfold Home.progress, poll_progress_settled.
  cbv zeta.
  assert (H : forall s0, progressUpdates s0 = progressUpdates s ++ [p] ->
                         List.last (progressUpdates s0) JNull = p)
    by (intros s0 ->; apply last_last).
  destruct (get_prop p "status") as [st|]; [|apply H].
  - destruct (is_str st "completed"); [apply H|].
    + unfold send, clearInterval. state_simpl.
      now destruct (progressIntervalRef s).
    + destruct (is_str st "error"); [|now apply H].
      destruct (get_prop p "current_stage"); apply H;
        unfold poll_catch, clearInterval; state_simpl;
        now destruct (progressIntervalRef s).
  - unfold poll_catch, clearInterval. state_simpl.
    now destruct (progressIntervalRef s).
Qed.

(** C3, as the code has it: the progress card reads [overall_progress],
    [current_stage] and [stages] and nothing else; the stage events are
    taken from the array [stages], one row per entry in the array's order,
    each row made of the entry's [stage], [message] and [timestamp]. *)
Theorem progress_card_reads_stages (progress : JSValue)
    (items : list JSValue) (view : Home.ProgressView) :
  get_prop progress "stages" = Some (JArr items) ->
  Home.render_progress progress = Some view ->
  Home.overall view = opt_get progress "overall_progress"
  /\ (exists rows,
        Home.stage_list view = Home.Rows rows
        /\ length rows = length items
        /\ forall i item,
             nth_error items i = Some item ->
             exists name,
               get_prop item "stage" = Some (JStr name)
               /\ nth_error rows i =
                  Some (Home.mkRow (Home.stage_icon name)
                          (Home.replace_underscore name)
                          (opt_get item "message")
                          (opt_get item "timestamp")))
  /\ (forall other,
        Forall (fun f => get_prop other f = get_prop progress f)
          Home.progress_fields ->
        Home.render_progress other = Some view).
Proof.
  intros Hst Hr. unfold Home.render_progress in Hr. rewrite Hst in Hr.
  destruct (get_prop progress "overall_progress") as [pct|] eqn:Ep;
    [|discriminate].
  destruct (get_prop progress "current_stage") as [cs|] eqn:Ec;
    [|discriminate].
  destruct (if nullish cs then _ else _) as [b|] eqn:Eb; [|discriminate].
  cbn [truthy] in Hr.
  destruct (Home.stage_rows items) as [rows|] eqn:Erows; [|discriminate].
  injection Hr as <-. split; [|split].
  - simpl. unfold opt_get. now rewrite Ep.
  - exists rows. split; [reflexivity|]. now apply stage_rows_spec.
  - intros other Hall. unfold Home.progress_fields in Hall.
    inversion_clear Hall as [|? ? H1 Hall1].
    inversion_clear Hall1 as [|? ? H2 Hall2].
    inversion_clear Hall2 as [|? ? H3 _].
    unfold Home.render_progress. rewrite H1, H2, H3, Ep, Ec, Hst, Eb.
    cbn [truthy]. now rewrite Erows.
Qed.

Lemma progress_card_reads_stages_witness :
  Home.render_progress
    (JObj [("stages", Samples.two_stages);
           ("current_stage", JStr "converting_audio");
           ("overall_progress", JNum (inject_Z 20));
           ("stage_history", JArr [])])
  = Some Samples.client_progress_view.
Proof.
  apply (progress_card_reads_stages Samples.client_progress
           [Samples.stage_entry "received" "Audio received" "t0";
            Samples.stage_entry "converting_audio" "Converting audio" "t1"]
           Samples.client_progress_view);
    [reflexivity|reflexivity|].
  repeat constructor.
Defined.

(** C3 as the specification words it does not hold: of an answer that
    carries its stage events under [stage_history] the card renders no
    stage row at all; the same events under [stages] are rendered. *)
Lemma stage_history_is_not_rendered :
  get_prop Samples.spec_progress "stage_history" = Some Samples.two_stages
  /\ option_map Home.stage_list (Home.render_progress Samples.spec_progress)
     = Some (Home.Falsy JUndefined)
  /\ option_map Home.stage_list (Home.render_progress Samples.client_progress)
     = Some (Home.Rows Samples.client_rows).
Proof. repeat split. Qed.

Import TranscriptionResult.

Lemma render_not_nullish (result : JSValue) (tab : Tab) (view : View) :
  render result tab = Some view -> nullish result = false.
Proof.
  intros H. destruct (nullish result) eqn:E; [|reflexivity].
  unfold render in H.
  destruct (render_panel result tab); [|discriminate].
  now rewrite (get_prop_nullish result "task_id" E) in H.
Qed.

(** The component as a function of the seven properties it reads. *)
Lemma render_fields (result : JSValue) (tab : Tab) :
  nullish result = false ->
  render result tab =
  match
    match tab with
    | TabTranscript =>
        match seconds_text 1 (opt_get result "duration") with
        | Some dt =>
            Some (TranscriptPanel
                    (or_else (opt_get result "transcript")
                       (JStr "No transcript available"))
                    (confidence_text (opt_get result "confidence")) dt)
        | None => None
        end
    | TabEntities =>
        match entities (opt_get result "diagnoses") "No diagnoses identified",
              entities (opt_get result "treatments")
                "No treatments identified" with
        | Some dv, Some tv => Some (EntitiesPanel dv tv)
        | _, _ => None
        end
    | TabSecurity => Some SecurityPanel
    end
  with
  | Some p =>
      match seconds_text 2 (opt_get result "processing_time") with
      | Some ptt =>
          Some (mkView p (or_else (opt_get result "task_id") (JStr "N/A")) ptt)
      | None => None
      end
  | None => None
  end.
Proof.
  intros E. unfold render, render_panel.
  rewrite !(get_prop_not_nullish result _ E). reflexivity.
Qed.

(** C4, as the code has it: the component reads [transcript],
    [confidence], [duration], [diagnoses], [treatments], [task_id] and
    [processing_time] and nothing else; the audio duration shown is the
    property [duration] and the pipeline timing shown is the property
    [processing_time], each "N/A" when the property is missing. *)
Theorem result_view_reads_duration_and_processing_time
    (result : JSValue) (tab : Tab) (view : View) :
  render result tab = Some view ->
  footer_task_id view = or_else (opt_get result "task_id") (JStr "N/A")
  /\ seconds_text 2 (opt_get result "processing_time")
     = Some (footer_processing_time view)
  /\ (tab = TabTranscript ->
      exists dt,
        seconds_text 1 (opt_get result "duration") = Some dt
        /\ panel view =
           TranscriptPanel
             (or_else (opt_get result "transcript")
                (JStr "No transcript available"))
             (confidence_text (opt_get result "confidence")) dt)
  /\ (tab = TabEntities ->
      exists dv tv,
        entities (opt_get result "diagnoses") "No diagnoses identified"
        = Some dv
        /\ entities (opt_get result "treatments") "No treatments identified"
           = Some tv
        /\ panel view = EntitiesPanel dv tv)
  /\ (forall other,
        Forall (fun f => get_prop other f = get_prop result f) result_fields ->
        render other tab = Some view).
Proof.
  intros H. pose proof (render_not_nullish result tab view H) as E.
  assert (Hview := H). rewrite (render_fields result tab E) in H.
  split; [|split; [|split; [|split]]].
  - destruct tab; repeat match type of H with
      | context [match ?x with _ => _ end] => destruct x; try discriminate H
      end; now injection H as <-.
  - destruct tab; repeat match type of H with
      | context [match ?x with _ => _ end] => destruct x eqn:?;
                                              try discriminate H
      end; injection H as <-; first [assumption|reflexivity].
  - intros ->.
    destruct (seconds_text 1 (opt_get result "duration")) as [dt|];
      [|discriminate].
    destruct (seconds_text 2 (opt_get result "processing_time"));
      [|discriminate].
    injection H as <-. now exists dt.
  - intros ->.
    destruct (entities (opt_get result "diagnoses") _) as [dv|];
      [|discriminate].
    destruct (entities (opt_get result "treatments") _) as [tv|];
      [|discriminate].
    destruct (seconds_text 2 (opt_get result "processing_time"));
      [|discriminate].
    injection H as <-. now exists dv, tv.
  - intros other Hall. unfold result_fields in Hall.
    repeat match goal with
      | Hf : Forall _ (_ :: _) |- _ => inversion_clear Hf
      end.
    repeat match goal with
      | Hg : get_prop other _ = get_prop result _ |- _ =>
          apply get_prop_agree in Hg; [|exact E]; destruct Hg as [? Hg]
      end.
    rewrite <- Hview, !render_fields by assumption.
    repeat match goal with
      | Hg : opt_get other _ = _ |- _ => rewrite Hg; clear Hg
      end.
    reflexivity.
Qed.

Lemma result_view_reads_duration_and_processing_time_witness :
  seconds_text 2 (opt_get Samples.client_result "processing_time")
  = Some (Fixed (3 # 2) 2 "s")
  /\ exists dt,
       seconds_text 1 (opt_get Samples.client_result "duration") = Some dt
       /\ TranscriptPanel (JStr "diagnosed with otitis externa")
            (Fixed ((9 # 10) * 100)%Q 1 "%") (Fixed (inject_Z 3) 1 "s")
          = TranscriptPanel
              (or_else (opt_get Samples.client_result "transcript")
                 (JStr "No transcript available"))
              (confidence_text (opt_get Samples.client_result "confidence"))
              dt.
Proof.
  destruct (result_view_reads_duration_and_processing_time
              Samples.client_result TabTranscript
              (mkView
                 (TranscriptPanel (JStr "diagnosed with otitis externa")
                    (Fixed ((9 # 10) * 100)%Q 1 "%")
                    (Fixed (inject_Z 3) 1 "s"))
                 (JStr "t1") (Fixed (3 # 2) 2 "s")))
    as (_ & H2 & H3 & _); [reflexivity|].
  split; [exact H2|exact (H3 eq_refl)].
Defined.

(** C4 as the specification words it does not hold: of a result that
    carries its timings as [duration_seconds] and
    [processing_time_seconds] the component shows "N/A" for both; it shows
    them when they come as [duration] and [processing_time]. *)
Lemma duration_seconds_is_not_shown :
  get_prop Samples.spec_result "duration_seconds" = Some (JNum (inject_Z 3))
  /\ get_prop Samples.spec_result "processing_time_seconds"
     = Some (JNum (3 # 2))
  /\ render Samples.spec_result TabTranscript
     = Some (mkView
               (TranscriptPanel (JStr "diagnosed with otitis externa")
                  (Fixed ((9 # 10) * 100)%Q 1 "%") (Lit "N/A"))
               (JStr "t1") (Lit "N/A"))
  /\ render Samples.client_result TabTranscript
     = Some (mkView
               (TranscriptPanel (JStr "diagnosed with otitis externa")
                  (Fixed ((9 # 10) * 100)%Q 1 "%")
                  (Fixed (inject_Z 3) 1 "s"))
               (JStr "t1") (Fixed (3 # 2) 2 "s")).
Proof. repeat split. Qed.

(** ** The task lifecycle (specification model) *)

Lemma work_left_insert (o : Registry.Orchestrator) (r : Registry.Registry)
    (k i : nat) (ops : list Registry.Op) :
  Registry.work_left i
    (Registry.mkOrchestrator r (<[k := ops]> (Registry.working o)))
  = if decide (k = i) then ops else Registry.work_left i o.
Proof.
  unfold Registry.work_left. simpl. destruct (decide (k = i)) as [->|Hne].
  - now rewrite lookup_insert_eq.
  - now rewrite lookup_insert_ne.
Qed.

Lemma start_ok (cap : nat) : Registry.orchestrator_ok (Registry.start cap).
Proof.
  split.
  - intros i t H. simpl in H. now rewrite lookup_empty in H.
  - intros i _. unfold Registry.work_left. simpl. now rewrite lookup_empty.
Qed.

(** A registry call on Task [k] that replaces it by [t'] and leaves the
    calls [rest] to make keeps the orchestrator in order when [t'] is. *)
Lemma put_ok (o : Registry.Orchestrator) (t t' : Registry.Task)
    (rest : list Registry.Op) :
  Registry.orchestrator_ok o ->
  Registry.tasks (Registry.registry o) !! Registry.id t = Some t ->
  Registry.id t' = Registry.id t ->
  Registry.task_ok t' ->
  Registry.fits (Registry.status t') (Registry.overall_progress t') rest ->
  Registry.orchestrator_ok
    (Registry.mkOrchestrator (Registry.put t' (Registry.registry o))
       (<[Registry.id t := rest]> (Registry.working o))).
Proof.
  intros [Hok Hnone] Ht Hid Htok Hfits. split.
  - intros i u. rewrite work_left_insert. unfold Registry.put. simpl.
    rewrite Hid. destruct (decide (Registry.id t = i)) as [<-|Hne].
    + rewrite lookup_insert_eq. intros [= <-].
      destruct (Hok _ _ Ht) as (_ & Hlt & _). now repeat split.
    + rewrite lookup_insert_ne by assumption. apply Hok.
  - intros i. rewrite work_left_insert. unfold Registry.put. simpl.
    rewrite Hid. destruct (decide (Registry.id t = i)) as [<-|Hne].
    + now rewrite lookup_insert_eq.
    + rewrite lookup_insert_ne by assumption. apply Hnone.
Qed.

Lemma plan_fits (t : Registry.Task) (tr : Registry.Transition)
    (ops : list Registry.Op) :
  Registry.task_ok t ->
  Registry.fits (Registry.status t) (Registry.overall_progress t) [] ->
  Registry.plan t tr = Some ops ->
  Registry.fits (Registry.status t) (Registry.overall_progress t) ops.
Proof.
  unfold Registry.plan, Registry.task_ok. intros Hok Hidle H.
  destruct (Registry.status t) eqn:Es, (Registry.current_stage t), tr;
    try discriminate H; injection H as <-; simpl in *;
    repeat split; auto; try discriminate; try lia.
Qed.

Lemma act_ok (a : Registry.Action) (o o' : Registry.Orchestrator) :
  Registry.orchestrator_ok o ->
  Registry.act a o = Registry.Ok o' ->
  Registry.orchestrator_ok o'.
Proof.
  intros Hoo H. pose proof Hoo as [Hok Hnone].
  destruct a as [now|i tr|i now]; unfold Registry.act, Registry.bind in H.
  - unfold Registry.create in H.
    destruct (Nat.ltb _ _); [|discriminate]. injection H as <-.
    assert (Hfresh : Registry.tasks (Registry.registry o)
                     !! Registry.next_id (Registry.registry o) = None).
    { destruct (Registry.tasks _ !! _) as [u|] eqn:Eu; [|reflexivity].
      destruct (Hok _ _ Eu) as (_ & Hlt & _). lia. }
    split.
    + intros j t. unfold Registry.work_left. simpl.
      destruct (decide (Registry.next_id (Registry.registry o) = j))
        as [<-|Hne].
      * rewrite lookup_insert_eq. intros [= <-].
        fold (Registry.work_left (Registry.next_id (Registry.registry o)) o).
        rewrite (Hnone _ Hfresh). unfold Registry.task_ok. simpl.
        repeat split; try lia; discriminate.
      * rewrite lookup_insert_ne by assumption. intros Hj.
        destruct (Hok _ _ Hj) as (? & ? & ? & ?). repeat split; auto; lia.
    + intros j. unfold Registry.work_left. simpl.
      destruct (decide (Registry.next_id (Registry.registry o) = j))
        as [<-|Hne].
      * now rewrite lookup_insert_eq.
      * rewrite lookup_insert_ne by assumption. apply Hnone.
  - unfold Registry.get in H.
    destruct (Registry.tasks (Registry.registry o) !! i) as [t|] eqn:Et;
      [|discriminate].
    destruct (Registry.work_left i o) eqn:Ew; [|discriminate].
    destruct (Registry.plan t tr) as [ops|] eqn:Ep; [|discriminate].
    injection H as <-. destruct (Hok _ _ Et) as (Hid & Hlt & Htok & Hfits).
    rewrite Ew in Hfits. split.
    + intros j u. rewrite work_left_insert. simpl.
      destruct (decide (i = j)) as [<-|Hne]; [|apply Hok].
      rewrite Et. intros [= <-]. repeat split; auto.
      now apply (plan_fits t tr).
    + intros j. rewrite work_left_insert. simpl.
      destruct (decide (i = j)) as [<-|Hne]; [|apply Hnone].
      now rewrite Et.
  - destruct (Registry.work_left i o) as [|op rest] eqn:Ew; [discriminate|].
    destruct (Registry.apply_op i op now (Registry.registry o)) as [r'|]
      eqn:Ea; [|discriminate].
    injection H as <-.
    unfold Registry.apply_op, Registry.append_stage, Registry.mark_running,
      Registry.complete, Registry.fail, Registry.bind, Registry.get in Ea.
    destruct (Registry.tasks (Registry.registry o) !! i) as [t|] eqn:Et;
      [|destruct op; discriminate].
    destruct (Hok _ _ Et) as (Hid & Hlt & Htok & Hfits).
    rewrite Ew in Hfits. subst i. unfold Registry.task_ok in Htok.
    assert (Hsome : forall A (x : A), is_Some (Some x)) by (intros; eauto).
    destruct op as [sg msg| |res|d]; cbn [Registry.fits] in Hfits.
    + injection Ea as <-. destruct Hfits as (Hst & Hq & Hrest).
      apply (put_ok o t); auto.
      unfold Registry.task_ok. simpl.
      destruct Hst as [Hs|Hs]; rewrite Hs in *; auto.
      destruct Htok as (_ & ? & ?). repeat split; auto.
    + injection Ea as <-. destruct Hfits as (Hs & ->). rewrite Hs in Htok.
      destruct Htok as (? & ? & ?).
      apply (put_ok o t); auto.
      * unfold Registry.task_ok. simpl. now split.
      * simpl. auto.
    + destruct Hfits as (Hs & ->). rewrite Hs in *. simpl in Ea.
      injection Ea as <-. destruct Htok as (? & ?).
      apply (put_ok o t); auto.
      * unfold Registry.task_ok. simpl. repeat split; auto.
      * simpl. discriminate.
    + destruct Hfits as (Hs & Hp & ->). rewrite Hs in *. simpl in Ea.
      injection Ea as <-. destruct Htok as (? & ?).
      apply (put_ok o t); auto.
      * unfold Registry.task_ok. simpl. repeat split; auto.
      * simpl. discriminate.
Qed.

Lemma acts_ok (l : list Registry.Action) (o o' : Registry.Orchestrator) :
  Registry.orchestrator_ok o ->
  Registry.acts l o = Registry.Ok o' ->
  Registry.orchestrator_ok o'.
Proof.
  revert o. induction l as [|a l IH]; intros o Hok H; simpl in H.
  - now injection H as <-.
  - unfold Registry.bind in H.
    destruct (Registry.act a o) as [o1|] eqn:E; [|discriminate].
    apply (IH o1); [|assumption]. now apply (act_ok a o).
Qed.

Lemma observable_ok (r : Registry.Registry) (i : nat) (t : Registry.Task) :
  Registry.observable r ->
  Registry.tasks r !! i = Some t ->
  Registry.task_ok t.
Proof.
  intros (cap & l & o & Hacts & <-) Ht.
  destruct (acts_ok l _ o (start_ok cap) Hacts) as [Hok _].
  now destruct (Hok i t Ht) as (_ & _ & ? & _).
Qed.

Lemma observable_after (l : list Registry.Action) (o : Registry.Orchestrator) :
  Registry.acts l (Registry.start 8) = Registry.Ok o ->
  Registry.observable (Registry.registry_after l).
Proof.
  intros H. exists 8, l, o. split; [assumption|].
  unfold Registry.registry_after. now rewrite H.
Qed.

(** C7, as the specification's own model has it once every registry call
    is an observable point: for every Task a reader can see,
    [status = completed] if and only if the result is present, and then
    [overall_progress = 100] and [error_detail] is absent;
    [overall_progress = 100] only for a Task that is [completed] or
    [running] (it reads 100 from the moment the [completed] stage entry is
    appended, before [complete] is called); and [error_detail] is present
    if and only if [status = failed]. *)
Theorem completed_iff_result_present
    (r : Registry.Registry) (i : nat) (t : Registry.Task) :
  Registry.observable r ->
  Registry.tasks r !! i = Some t ->
  (Registry.status t = Registry.completed <-> is_Some (Registry.result t))
  /\ (Registry.status t = Registry.completed ->
      Registry.overall_progress t = 100)
  /\ (Registry.overall_progress t = 100 ->
      Registry.status t = Registry.completed
      \/ Registry.status t = Registry.running)
  /\ (is_Some (Registry.result t) -> Registry.error_detail t = None)
  /\ (Registry.status t = Registry.failed
      <-> is_Some (Registry.error_detail t)).
Proof.
  intros Hobs Ht. pose proof (observable_ok r i t Hobs Ht) as Hok.
  unfold Registry.task_ok in Hok.
  destruct (Registry.status t); destruct Hok as (H1 & H2);
    try destruct H2 as (H2 & H3);
    repeat split; intros; try discriminate; try assumption; try lia;
    auto;
    repeat match goal with
      | Hn : ?x = None, Hs : is_Some ?x |- _ =>
          rewrite Hn in Hs; destruct Hs; discriminate
      end.
Qed.

Lemma completed_iff_result_present_witness :
  Registry.tasks (Registry.registry_after Registry.one_completed) !! 0
  = Some Registry.completed_task
  /\ (Registry.status Registry.completed_task = Registry.completed
      <-> is_Some (Registry.result Registry.completed_task))
  /\ (Registry.status Registry.completed_task = Registry.completed ->
      Registry.overall_progress Registry.completed_task = 100).
Proof.
  assert (Et : Registry.tasks
                 (Registry.registry_after Registry.one_completed) !! 0
               = Some Registry.completed_task)
    by (vm_compute; reflexivity).
  split; [exact Et|].
  destruct (completed_iff_result_present
              (Registry.registry_after Registry.one_completed) 0
              Registry.completed_task)
    as (H1 & H2 & _); [|exact Et|now split].
  destruct (Registry.acts Registry.one_completed (Registry.start 8))
    as [o|e] eqn:E; [|vm_compute in E; discriminate E].
  exact (observable_after Registry.one_completed o E).
Defined.

(** C7 as the specification words it does not hold.  A Task that has just
    been created is [queued], not [completed], and has no [error_detail]:
    an absent [error_detail] does not make a Task completed.  And between
    the append of the [completed] stage entry and the call of [complete] a
    reader sees [overall_progress = 100] on a Task that is still [running]
    and has no result. *)
Lemma iff_chain_fails_before_completion :
  (Registry.observable (Registry.registry_after Registry.one_queued)
   /\ Registry.tasks (Registry.registry_after Registry.one_queued) !! 0
      = Some Registry.queued_task
   /\ Registry.error_detail Registry.queued_task = None
   /\ Registry.status Registry.queued_task <> Registry.completed)
  /\ (Registry.observable
        (Registry.registry_after Registry.one_before_complete)
      /\ Registry.tasks
           (Registry.registry_after Registry.one_before_complete) !! 0
         = Some Registry.before_complete_task
      /\ Registry.overall_progress Registry.before_complete_task = 100
      /\ Registry.status Registry.before_complete_task <> Registry.completed
      /\ Registry.result Registry.before_complete_task = None).
Proof.
  split; (split; [|split; [vm_compute; reflexivity|]]);
    try (repeat split; discriminate).
  - destruct (Registry.acts Registry.one_queued (Registry.start 8))
      as [o|e] eqn:E; [|vm_compute in E; discriminate E].
    exact (observable_after Registry.one_queued o E).
  - destruct (Registry.acts Registry.one_before_complete (Registry.start 8))
      as [o|e] eqn:E; [|vm_compute in E; discriminate E].
    exact (observable_after Registry.one_before_complete o E).
Qed.

(** ** Polls that do not overlap *)

Lemma In_remove_key_ne {A : Type} (k i : nat) (x : A) (l : list (nat * A)) :
  In (i, x) (remove_key k l) -> i <> k.
Proof.
  unfold remove_key. intros H. apply filter_In in H. destruct H as [_ H].
  simpl in H. intros ->. now rewrite Nat.eqb_refl in H.
Qed.

Lemma step_only_result_query (t : JSValue) (k : nat) (s s' : State)
    (e : Event) :
  only_result_query t k s ->
  step s e = Some s' ->
  (forall rid d form ct,
      e = Response rid (Resolved d) ->
      assoc rid (pending s) = Some (PostTranscribe form ct) ->
      get_prop d "task_id" <> Some t) ->
  only_result_query t k s'
  /\ (forall rid r, In (rid, r) (log s') -> In (rid, r) (log s) \/ ~ mentions t r).
Proof.
  intros [Ht Hpend] H Hnew.
  destruct e as [| |mo|r data|r|tm|rid o]; step_cases H;
    (split; [split|]); state_simpl;
    try assumption; try (intros k0 x Hin Hm); try (intros k0 x Hin);
    try (intros k0 Hin);
    try (left; assumption);
    in_cases;
    try (left; assumption);
    try (eapply Ht; eassumption);
    try (eapply Hpend; eassumption);
    try (destruct Hm as [Hm|Hm]; discriminate Hm);
    try right;
    try (intros [Hm|Hm]; try discriminate Hm; injection Hm as ->);
    try (destruct Hm as [Hm|Hm]; try discriminate Hm; injection Hm as ->);
    try (eapply Hnew; [reflexivity|eassumption|assumption]);
    repeat match goal with
      | Ha : assoc _ _ = Some _ |- _ => apply assoc_In in Ha
      end;
    try (exfalso; eapply Ht; eassumption);
    try (exfalso;
         match goal with
         | Ha : In (_, GetProgress ?u) (pending _) |- _ =>
             destruct (Hpend _ _ Ha (or_introl eq_refl)) as [_ Habs];
             discriminate Habs
         end).
Qed.

Lemma run_only_result_query (t : JSValue) (k : nat) (evs : list Event)
    (s s' : State) :
  well_formed s ->
  only_result_query t k s ->
  run s evs = Some s' ->
  (forall rid d form ct,
      In (Response rid (Resolved d)) evs ->
      In (rid, PostTranscribe form ct) (log s') ->
      get_prop d "task_id" <> Some t) ->
  forall rid r, In (rid, r) (log s') -> mentions t r -> In (rid, r) (log s).
Proof.
  revert s. induction evs as [|e evs IH]; intros s Hwf Hq H Hnew;
    simpl in H.
  - injection H as <-. auto.
  - destruct (step s e) as [s1|] eqn:E; [|discriminate].
    assert (Hincl : incl (log s1) (log s')) by now apply (run_log_incl s1 s' evs).
    destruct (step_only_result_query t k s s1 e Hq E) as [Hq1 Hlog1].
    { intros rid d form ct -> Hp. apply (Hnew rid d form ct); [now left|].
      apply Hincl, (step_log_incl s s1 _ E), Hwf.
      eapply assoc_In; eassumption. }
    intros rid r Hin Hm.
    destruct (Hlog1 rid r) as [?|Hn]; [|assumption|contradiction].
    apply (IH s1); try assumption.
    + now apply (step_well_formed s s1 e).
    + intros rid' d form ct Hin'. apply Hnew. now right.
Qed.

(** X18, the polling contract for polls that do not overlap: when the
    answer [completed] arrives while nothing else of the task is in
    flight, the result query sent by that callback is the only further
    request that ever names the task (unless an upload is answered with the same id
    again). *)
Theorem single_result_query_without_overlap (s s' : State) (rid : nat)
    (taskId progress : JSValue) :
  well_formed s ->
  assoc rid (pending s) = Some (GetProgress taskId) ->
  get_prop progress "status" = Some (JStr "completed") ->
  (forall i, In (i, taskId) (timers s) -> progressIntervalRef s = Some i) ->
  (forall r q, In (r, q) (pending s) -> mentions taskId q -> r = rid) ->
  step s (Response rid (Resolved progress)) = Some s' ->
  forall evs s'',
    run s' evs = Some s'' ->
    (forall r d form ct,
        In (Response r (Resolved d)) evs ->
        In (r, PostTranscribe form ct) (log s'') ->
        get_prop d "task_id" <> Some taskId) ->
    forall r q,
      In (r, q) (log s'') -> mentions taskId q ->
      In (r, q) (log s) \/ (r, q) = (fresh s, GetResults taskId).
Proof.
  intros Hwf Hp Hst Htm Hpend Hstep evs s'' Hrun Hnew r q Hin Hm.
  destruct (completed_sends_result_query s s' rid taskId progress Hp Hst Hstep)
    as [Hlog _].
  assert (Hq : only_result_query taskId (fresh s) s').
  { unfold step in Hstep. rewrite Hp in Hstep. injection Hstep as <-.
    unfold poll_progress_settled. cbv zeta. rewrite Hst.
    change (is_str (JStr "completed") "completed") with true. cbv iota.
    split.
    - intros i Hi. unfold send, clearInterval in Hi. state_simpl.
      destruct (progressIntervalRef s) as [k|] eqn:Ek; state_simpl.
      + pose proof (In_remove_key_ne _ _ _ _ Hi) as Hne.
        apply In_remove_key in Hi. specialize (Htm i Hi). congruence.
      + specialize (Htm i Hi). discriminate.
    - intros k x Hi Hmx. unfold send, clearInterval in Hi.
      assert (Hi' : In (k, x) (remove_key rid (pending s)
                                ++ [(fresh s, GetResults taskId)]))
        by (destruct (progressIntervalRef s); exact Hi).
      apply in_app_or in Hi'. destruct Hi' as [Hi'|[[= <- <-]|[]]];
        [|now split].
      pose proof (In_remove_key_ne _ _ _ _ Hi') as Hne.
      apply In_remove_key in Hi'. now specialize (Hpend k x Hi' Hmx). }
  pose proof (run_only_result_query taskId (fresh s) evs s' s''
                (step_well_formed s s' _ Hwf Hstep) Hq Hrun Hnew r q Hin Hm)
    as Hin'.
  rewrite Hlog in Hin'. apply in_app_or in Hin'.
  destruct Hin' as [?|[<-|[]]]; [now left|now right].
Qed.

(** X19, the same for a poll that fails: when a progress poll is rejected
    while nothing else of the task is in flight, the client shows "Failed
    to get progress", resets [isProcessing] and [currentTaskId], stops
    polling, and no later request names the task (unless an upload is
    answered with the same id again). *)
Theorem poll_failure_is_final_without_overlap (s s' : State) (rid : nat)
    (taskId err : JSValue) :
  well_formed s ->
  assoc rid (pending s) = Some (GetProgress taskId) ->
  (forall i, In (i, taskId) (timers s) -> progressIntervalRef s = Some i) ->
  (forall r q, In (r, q) (pending s) -> mentions taskId q -> r = rid) ->
  step s (Response rid (Rejected err)) = Some s' ->
  error s' = JStr "Failed to get progress"
  /\ polling s' = false
  /\ isProcessing s' = false
  /\ currentTaskId s' = JNull
  /\ forall evs s'',
       run s' evs = Some s'' ->
       (forall r d form ct,
           In (Response r (Resolved d)) evs ->
           In (r, PostTranscribe form ct) (log s'') ->
           get_prop d "task_id" <> Some taskId) ->
       forall r q, In (r, q) (log s'') -> mentions taskId q -> In (r, q) (log s).
Proof.
  intros Hwf Hp Htm Hpend Hstep.
  assert (Hwf' := step_well_formed s s' _ Hwf Hstep).
  unfold step in Hstep. rewrite Hp in Hstep. injection Hstep as <-.
  cbn [poll_progress_settled].
  set (s0 := set_pending (remove_key rid (pending s)) s) in *.
  split; [reflexivity|]. split; [exact (polling_clearInterval s0)|].
  split; [reflexivity|]. split; [reflexivity|].
  intros evs s'' Hrun Hnew r q Hin Hm.
  assert (Hidle : idle_for taskId (poll_catch s0)).
  { split.
    - intros i Hi. unfold poll_catch, clearInterval in Hi. state_simpl.
      change (progressIntervalRef s0) with (progressIntervalRef s) in Hi.
      destruct (progressIntervalRef s) as [k|] eqn:Ek; state_simpl.
      + pose proof (In_remove_key_ne _ _ _ _ Hi) as Hne.
        apply In_remove_key in Hi. specialize (Htm i Hi). congruence.
      + specialize (Htm i Hi). discriminate.
    - intros k x Hi Hmx. unfold poll_catch, clearInterval in Hi.
      assert (Hi' : In (k, x) (remove_key rid (pending s)))
        by (destruct (progressIntervalRef s0); exact Hi).
      pose proof (In_remove_key_ne _ _ _ _ Hi') as Hne.
      apply In_remove_key in Hi'. now specialize (Hpend k x Hi' Hmx). }
  assert (Hlog : log (poll_catch s0) = log s).
  { unfold poll_catch, clearInterval.
    now destruct (progressIntervalRef s0). }
  rewrite <- Hlog.
  exact (proj2 (run_idle taskId evs _ s'' Hwf' Hidle Hrun Hnew) r q Hin Hm).
Qed.

Lemma assoc_fresh {A : Type} (k : nat) (x : A) (l : list (nat * A)) :
  (forall i y, In (i, y) l -> i < k) ->
  assoc k (l ++ [(k, x)]) = Some x.
Proof.
  induction l as [|[i y] l IH]; intros H; simpl.
  - now rewrite Nat.eqb_refl.
  - destruct (Nat.eqb i k) eqn:E.
    + apply Nat.eqb_eq in E. specialize (H i y (or_introl eq_refl)). lia.
    + apply IH. intros j z Hin. apply (H j z). now right.
Qed.

(** One poll answered before the next tick, with an answer that does not
    stop the loop: the request is sent, the page is given the answer, and
    nothing else changes. *)
Lemma poll_round_goes_on (s : State) (t : nat) (taskId : JSValue)
    (o : Outcome) :
  well_formed s ->
  assoc t (timers s) = Some taskId ->
  stops_polling o = false ->
  exists s1 s2,
    step s (Tick t) = Some s1
    /\ step s1 (Response (fresh s) o) = Some s2
    /\ timers s2 = timers s
    /\ progressIntervalRef s2 = progressIntervalRef s
    /\ isProcessing s2 = isProcessing s
    /\ error s2 = error s
    /\ log s2 = log s ++ [(fresh s, GetProgress taskId)].
Proof.
  intros (Hp & Hl & _) Ht Hstop.
  exists (interval_callback taskId s). eexists.
  split; [unfold step; now rewrite Ht|].
  split.
  - unfold step, interval_callback, send. state_simpl.
    rewrite assoc_fresh; [reflexivity|].
    intros i y Hin. apply (Hl i y), Hp, Hin.
  - destruct o as [p|e]; [|discriminate Hstop].
    unfold stops_polling in Hstop. unfold poll_progress_settled. cbv zeta.
    destruct (get_prop p "status") as [st|]; [|discriminate Hstop].
    apply orb_false_iff in Hstop. destruct Hstop as [-> ->].
    repeat split.
Qed.

(** X20: however many polls are answered one at a time with answers that
    do not stop the loop, the client goes on polling: the interval stays
    live, [isProcessing] and the error are unchanged and one request was
    sent per answer. *)
Lemma non_stopping_rounds (answers : list Outcome) (s : State) (t : nat)
    (taskId : JSValue) :
  well_formed s ->
  progressIntervalRef s = Some t ->
  assoc t (timers s) = Some taskId ->
  Forall (fun o => stops_polling o = false) answers ->
  exists s',
    poll_rounds t answers s = Some s'
    /\ polling s' = true
    /\ isProcessing s' = isProcessing s
    /\ error s' = error s
    /\ length (log s') = length (log s) + length answers.
Proof.
  revert s. induction answers as [|o answers IH]; intros s Hwf Hr Ht Hall.
  - exists s. repeat split; [|simpl; lia].
    unfold polling, timer_live. now rewrite Hr, Ht.
  - inversion_clear Hall as [|? ? Ho Hrest].
    destruct (poll_round_goes_on s t taskId o Hwf Ht Ho)
      as (s1 & s2 & H1 & H2 & Htm & Href & Hproc & Herr & Hlog).
    destruct (IH s2) as (s' & Hrun & Hpoll & Hproc' & Herr' & Hlen);
      try assumption.
    + apply (step_well_formed s1 s2 (Response (fresh s) o)); [|exact H2].
      exact (step_well_formed s s1 (Tick t) Hwf H1).
    + congruence.
    + now rewrite Htm.
    + exists s'. cbn [poll_rounds]. rewrite H1, H2.
      repeat split; try congruence.
      rewrite Hlen, Hlog, length_app. simpl. lia.
Qed.

(** However long the server reports [failed], the client keeps polling
    and shows no error. *)
Lemma failed_task_is_polled_forever (n : nat) :
  exists s,
    poll_rounds 2 (repeat (Resolved Samples.failed_progress) n)
      Samples.submitted_state = Some s
    /\ polling s = true
    /\ isProcessing s = true
    /\ error s = JNull
    /\ length (log s) = 1 + n.
Proof.
  destruct (non_stopping_rounds (repeat (Resolved Samples.failed_progress) n)
              Samples.submitted_state 2 (JStr "t1"))
    as (s & H1 & H2 & H3 & H4 & H5); try reflexivity.
  - apply (run_well_formed init _ Samples.submitted well_formed_init).
    vm_compute. reflexivity.
  - clear. induction n; simpl; constructor; [reflexivity|assumption].
  - exists s. rewrite repeat_length in H5. now repeat split.
Qed.


Lemma single_result_query_without_overlap_example :
  forall r q,
    In (r, q) (log Samples.next_recording_state) ->
    mentions (JStr "t1") q ->
    In (r, q) (log Samples.first_poll) \/ (r, q) = (4, GetResults (JStr "t1")).
Proof.
  apply (single_result_query_without_overlap Samples.first_poll
           Samples.first_poll_completed 3 (JStr "t1")
           Samples.completed_progress)
    with (evs := Samples.next_recording).
  - apply (run_well_formed init _ (Samples.submitted ++ [Tick 2])
             well_formed_init).
    vm_compute. reflexivity.
  - reflexivity.
  - reflexivity.
  - intros i Hi. destruct Hi as [Hi|[]]. injection Hi as <-. reflexivity.
  - intros r q Hi _. destruct Hi as [Hi|[]]. now injection Hi as <- <-.
  - vm_compute. reflexivity.
  - vm_compute. reflexivity.
  - intros r d form ct [Hd|[Hd|[]]]; [|discriminate Hd].
    injection Hd as <- <-. intros Hin. exfalso.
    repeat (destruct Hin as [Hin|Hin]; [discriminate Hin|]). exact Hin.
Defined.

Lemma poll_failure_is_final_without_overlap_example :
  error Samples.first_poll_failed = JStr "Failed to get progress"
  /\ forall r q,
       In (r, q) (log Samples.recording_after_failure) ->
       mentions (JStr "t1") q ->
       In (r, q) (log Samples.first_poll).
Proof.
  destruct (poll_failure_is_final_without_overlap Samples.first_poll
              Samples.first_poll_failed 3 (JStr "t1") JUndefined)
    as (H1 & _ & _ & _ & H5).
  - apply (run_well_formed init _ (Samples.submitted ++ [Tick 2])
             well_formed_init).
    vm_compute. reflexivity.
  - reflexivity.
  - intros i Hi. destruct Hi as [Hi|[]]. injection Hi as <-. reflexivity.
  - intros r q Hi _. destruct Hi as [Hi|[]]. now injection Hi as <- <-.
  - vm_compute. reflexivity.
  - split; [exact H1|].
    apply (H5 [ClickStart]); [vm_compute; reflexivity|].
    intros r d form ct [Hd|[]]. discriminate Hd.
Defined.

(** * Further properties of the components *)

Import Causes.

(** ** AudioRecorder: what is recorded and sent *)

Lemma kept_chunks_step (acc : list Blob) (e : Event) (rest : list Event) :
  kept_chunks acc (e :: rest) = kept_chunks (kept_chunks acc [e]) rest.
Proof.
  destruct e as [| |[|opus started]|r d|r|t|rid o]; reflexivity.
Qed.

Lemma step_audioChunks (s s' : State) (e : Event) :
  step s e = Some s' ->
  audioChunksRef s' = kept_chunks (audioChunksRef s) [e].
Proof.
  intros H. destruct e as [| |mo|r data|r|tm|rid o]; step_cases H;
    cbn [kept_chunks]; try reflexivity;
    repeat match goal with
      | Hb : Nat.ltb _ _ = _ |- _ => rewrite Hb
      end; reflexivity.
Qed.

Lemma run_audioChunks (evs : list Event) (s s' : State) :
  run s evs = Some s' ->
  audioChunksRef s' = kept_chunks (audioChunksRef s) evs.
Proof.
  revert s. induction evs as [|e evs IH]; intros s H; simpl in H.
  - now injection H as <-.
  - destruct (step s e) as [s1|] eqn:E; [|discriminate].
    rewrite kept_chunks_step, <- (step_audioChunks s s1 e E). now apply IH.
Qed.



(** ** AudioRecorder: which requests are sent, and when *)

Lemma step_result_queries (P : JSValue -> Prop) (s s' : State) (e : Event) :
  step s e = Some s' ->
  (forall rid p t,
      e = Response rid (Resolved p) ->
      In (rid, GetProgress t) (pending s) ->
      get_prop p "status" = Some (JStr "completed") -> P t) ->
  forall rid t,
    In (rid, GetResults t) (log s') ->
    In (rid, GetResults t) (log s) \/ P t.
Proof.
  intros H Hnew.
  destruct e as [| |mo|r data|r|tm|rid o]; step_cases H;
    intros k x Hin; try (left; assumption);
    in_cases; try discriminate; try (left; assumption).
  all: right; eapply Hnew; [reflexivity|eapply assoc_In; eassumption|].
  all: match goal with
       | Hc : is_str _ "completed" = true |- _ =>
           apply is_str_true in Hc; subst
       end.
  all: assumption.
Qed.

Lemma answered_completed_mono (evs : list Event) (e : Event) (s s' : State)
    (t : JSValue) :
  incl (log s) (log s') ->
  answered_completed evs s t -> answered_completed (evs ++ [e]) s' t.
Proof.
  intros Hincl (rid & p & Hl & He & Hp). exists rid, p.
  repeat split; [now apply Hincl| |assumption].
  apply in_or_app. now left.
Qed.

(** X2: the client asks for a task's result only after a progress poll of
    that task was answered with status [completed]: in every run, every
    result query in the log names a task for which such an answer arrived
    earlier in the run. *)
Theorem result_query_only_after_completed (evs : list Event) (s : State)
    (rid : nat) (t : JSValue) :
  run init evs = Some s ->
  In (rid, GetResults t) (log s) ->
  answered_completed evs s t.
Proof.
  revert s rid t. induction evs as [|e evs IH] using rev_ind;
    intros s rid t H Hin.
  - injection H as <-. destruct Hin.
  - apply run_snoc in H. destruct H as (s1 & Hrun & Hstep).
    assert (Hwf : well_formed s1)
      by exact (run_well_formed init s1 evs well_formed_init Hrun).
    assert (Hincl : incl (log s1) (log s)) by exact (step_log_incl _ _ _ Hstep).
    destruct (step_result_queries (answered_completed (evs ++ [e]) s)
                s1 s e Hstep) with (rid := rid) (t := t)
      as [Hold|Hnew]; try assumption.
    + intros k p u -> Hp Hst. exists k, p.
      repeat split; [apply Hincl, Hwf, Hp| |assumption].
      apply in_or_app. right. now left.
    + apply (answered_completed_mono evs e s1 s t Hincl).
      now apply (IH s1 rid t).
Qed.

Lemma result_query_only_after_completed_witness :
  answered_completed Samples.overlapping_completed
    (Samples.after Samples.overlapping_completed) (JStr "t1").
Proof.
  apply (result_query_only_after_completed Samples.overlapping_completed
           (Samples.after Samples.overlapping_completed) 5 (JStr "t1")).
  - vm_compute. reflexivity.
  - vm_compute. do 3 right. left. reflexivity.
Defined.

Lemma count_app {A : Type} (p : A -> bool) (l1 l2 : list A) :
  count p (l1 ++ l2) = count p l1 + count p l2.
Proof. unfold count. now rewrite List.filter_app, length_app. Qed.

Lemma step_request_counts (s s' : State) (e : Event) :
  step s e = Some s' ->
  count is_upload (requests s')
  = count is_upload (requests s) + count is_recorder_stop [e]
  /\ count is_progress_query (requests s')
     = count is_progress_query (requests s) + count is_tick [e].
Proof.
  intros H.
  destruct e as [| |mo|r data|r|tm|rid o]; step_cases H;
    unfold requests; state_simpl; rewrite ?map_app, ?count_app;
    cbn; split; lia.
Qed.

(** X3: the requests of a run by their cause: the client uploads once for
    every stop event of a recorder and sends one progress query for every
    tick of a polling timer, no more and no less. *)
Theorem one_request_per_cause (evs : list Event) (s : State) :
  run init evs = Some s ->
  count is_upload (requests s) = count is_recorder_stop evs
  /\ count is_progress_query (requests s) = count is_tick evs.
Proof.
  revert s. induction evs as [|e evs IH] using rev_ind; intros s H.
  - injection H as <-. split; reflexivity.
  - apply run_snoc in H. destruct H as (s1 & Hrun & Hstep).
    destruct (IH s1 Hrun) as [Hu Hp].
    destruct (step_request_counts s1 s e Hstep) as [Hu' Hp'].
    rewrite !count_app. split; congruence.
Qed.

Lemma one_request_per_cause_witness :
  count is_upload (requests (Samples.after Samples.third_submission)) = 3
  /\ count is_progress_query
       (requests (Samples.after Samples.third_submission)) = 3.
Proof.
  apply (one_request_per_cause Samples.third_submission
           (Samples.after Samples.third_submission)).
  vm_compute. reflexivity.
Defined.

Lemma step_callbacks (s s' : State) (e : Event) :
  step s e = Some s' ->
  (progressUpdates s' = progressUpdates s
   \/ exists rid t p,
        e = Response rid (Resolved p)
        /\ In (rid, GetProgress t) (pending s)
        /\ progressUpdates s' = progressUpdates s ++ [p])
  /\ (completions s' = completions s
      \/ exists rid t d,
           e = Response rid (Resolved d)
           /\ In (rid, GetResults t) (pending s)
           /\ completions s' = completions s ++ [d]).
Proof.
  intros H.
  destruct e as [| |mo|r data|r|tm|rid o]; step_cases H; split;
    try (left; reflexivity);
    right; do 3 eexists;
    (split; [reflexivity|split; [eapply assoc_In; eassumption|reflexivity]]).
Qed.

Lemma answer_to_mono (kind : Request -> bool) (evs : list Event) (e : Event)
    (s s' : State) (d : JSValue) :
  incl (log s) (log s') ->
  answer_to kind evs s d -> answer_to kind (evs ++ [e]) s' d.
Proof.
  intros Hincl (rid & r & Hl & Hk & He). exists rid, r.
  repeat split; [now apply Hincl|assumption|].
  apply in_or_app. now left.
Qed.

(** X4: the page is only ever handed what the server sent: in every run,
    each payload given to [onProgressUpdate] is the body of an answer to a
    progress query of that run, and each payload given to
    [onTranscriptionComplete] is the body of an answer to a result query
    of that run. *)
Theorem page_is_handed_server_answers (evs : list Event) (s : State) :
  run init evs = Some s ->
  Forall (answer_to is_progress_query evs s) (progressUpdates s)
  /\ Forall (answer_to is_result_query evs s) (completions s).
Proof.
  revert s. induction evs as [|e evs IH] using rev_ind; intros s H.
  - injection H as <-. split; constructor.
  - apply run_snoc in H. destruct H as (s1 & Hrun & Hstep).
    destruct (IH s1 Hrun) as [Hp Hc].
    assert (Hwf : well_formed s1)
      by exact (run_well_formed init s1 evs well_formed_init Hrun).
    assert (Hincl : incl (log s1) (log s)) by exact (step_log_incl _ _ _ Hstep).
    assert (Hp' : Forall (answer_to is_progress_query (evs ++ [e]) s)
                    (progressUpdates s1)).
    { eapply List.Forall_impl; [|exact Hp]. intros d.
      now apply answer_to_mono. }
    assert (Hc' : Forall (answer_to is_result_query (evs ++ [e]) s)
                    (completions s1)).
    { eapply List.Forall_impl; [|exact Hc]. intros d.
      now apply answer_to_mono. }
    destruct (step_callbacks s1 s e Hstep) as [Hpu Hco]. split.
    + destruct Hpu as [->|(rid & t & p & -> & Hin & ->)]; [assumption|].
      apply Forall_app. split; [assumption|]. constructor; [|constructor].
      exists rid, (GetProgress t).
      repeat split; [apply Hincl, Hwf, Hin|].
      apply in_or_app. right. now left.
    + destruct Hco as [->|(rid & t & d & -> & Hin & ->)]; [assumption|].
      apply Forall_app. split; [assumption|]. constructor; [|constructor].
      exists rid, (GetResults t).
      repeat split; [apply Hincl, Hwf, Hin|].
      apply in_or_app. right. now left.
Qed.

Lemma page_is_handed_server_answers_witness :
  Forall (answer_to is_progress_query
            (Samples.overlapping_completed
             ++ [Response 5 (Resolved Samples.client_result)])
            (Samples.after
               (Samples.overlapping_completed
                ++ [Response 5 (Resolved Samples.client_result)])))
    [Samples.completed_progress; Samples.completed_progress]
  /\ Forall (answer_to is_result_query
               (Samples.overlapping_completed
                ++ [Response 5 (Resolved Samples.client_result)])
               (Samples.after
                  (Samples.overlapping_completed
                   ++ [Response 5 (Resolved Samples.client_result)])))
       [Samples.client_result].
Proof.
  apply (page_is_handed_server_answers
           (Samples.overlapping_completed
            ++ [Response 5 (Resolved Samples.client_result)])
           (Samples.after
              (Samples.overlapping_completed
               ++ [Response 5 (Resolved Samples.client_result)]))).
  vm_compute. reflexivity.
Defined.

(** An event that is no answer of the server leaves what the page shows
    of progress and result as it is. *)
Lemma step_page_unchanged (s s' : State) (e : Event) :
  step s e = Some s' ->
  is_response e = false ->
  progressUpdates s' = progressUpdates s /\ completions s' = completions s.
Proof.
  intros H He. destruct (step_callbacks s s' e H) as [Hp Hc].
  destruct Hp as [Hp|(? & ? & ? & -> & _)]; [|discriminate He].
  destruct Hc as [Hc|(? & ? & ? & -> & _)]; [|discriminate He].
  now split.
Qed.

(** X5: the page never clears what it shows: while no answer of the
    server arrives - through clicks, a whole new recording, its upload
    being sent, ticks of the timer - the progress card and the result
    card keep showing the progress and the result of the previous task. *)
Theorem page_keeps_previous_task (evs : list Event) (s s' : State) :
  run s evs = Some s' ->
  forallb (fun e => negb (is_response e)) evs = true ->
  Home.progress s' = Home.progress s
  /\ Page.transcriptionResult s' = Page.transcriptionResult s
  /\ Page.shows_progress s' = Page.shows_progress s
  /\ Page.shows_result s' = Page.shows_result s.
Proof.
  revert s. induction evs as [|e evs IH]; intros s H Hall; simpl in H.
  - injection H as <-. repeat split.
  - destruct (step s e) as [s1|] eqn:E; [|discriminate].
    simpl in Hall. apply andb_true_iff in Hall. destruct Hall as [He Hall].
    apply negb_true_iff in He.
    destruct (step_page_unchanged s s1 e E He) as [Hp Hc].
    destruct (IH s1 H Hall) as (H1 & H2 & H3 & H4).
    unfold Page.shows_progress, Page.shows_result, Page.transcriptionResult,
      Home.progress in *.
    rewrite Hp, Hc in *. now repeat split.
Qed.

Lemma page_keeps_previous_task_witness :
  Page.transcriptionResult
    (Samples.after
       (Samples.submitted ++
        [Tick 2; Response 3 (Resolved Samples.completed_progress);
         Response 4 (Resolved Samples.client_result)]
        ++ MoreSamples.next_take))
  = Samples.client_result.
Proof.
  destruct (page_keeps_previous_task MoreSamples.next_take
              MoreSamples.result_shown
              (Samples.after
                 (Samples.submitted ++
                  [Tick 2; Response 3 (Resolved Samples.completed_progress);
                   Response 4 (Resolved Samples.client_result)]
                  ++ MoreSamples.next_take)))
    as (_ & H & _); [vm_compute; reflexivity|reflexivity|].
  exact H.
Defined.

(** ** AudioRecorder: recording and its controls *)

Lemma step_recording (s s' : State) (e : Event) :
  step s e = Some s' ->
  (isRecording s = true -> mediaRecorderRef s <> None) ->
  (isRecording s' = true -> mediaRecorderRef s' <> None)
  /\ (isRecording s' = true ->
      isRecording s = true
      \/ exists opus, e = UserMedia (MediaGranted opus true)).
Proof.
  intros H Hinv.
  destruct e as [| |mo|r data|r|tm|rid o]; step_cases H; split;
    try assumption; try discriminate; try (intros; left; assumption);
    try (intros; right; eexists; reflexivity).
  all: intros Hr;
    first [congruence|exact (Hinv Hr)|exfalso; now apply (Hinv Hr)].
Qed.

Lemma run_recording (evs : list Event) (s : State) :
  run init evs = Some s ->
  (isRecording s = true -> mediaRecorderRef s <> None)
  /\ (isRecording s = true ->
      exists opus, In (UserMedia (MediaGranted opus true)) evs).
Proof.
  revert s. induction evs as [|e evs IH] using rev_ind; intros s H.
  - injection H as <-. split; discriminate.
  - apply run_snoc in H. destruct H as (s1 & Hrun & Hstep).
    destruct (IH s1 Hrun) as [Hinv Hev].
    destruct (step_recording s1 s e Hstep Hinv) as [Hinv' Hev'].
    split; [assumption|]. intros Hr.
    destruct (Hev' Hr) as [Hold|[opus ->]].
    + destruct (Hev Hold) as [opus Hin]. exists opus.
      apply in_or_app. now left.
    + exists opus. apply in_or_app. right. now left.
Qed.

(** X6: recording is on only after microphone access was granted and a
    recorder was started: in every run, [isRecording] holds only if one of
    the events of the run is a granted [getUserMedia] whose recorder
    started; a refused access or a recorder that fails to start never
    turns it on. *)
Theorem recording_only_after_start (evs : list Event) (s : State) :
  run init evs = Some s ->
  isRecording s = true ->
  exists opus, In (UserMedia (MediaGranted opus true)) evs.
Proof. intros H. exact (proj2 (run_recording evs s H)). Qed.

Lemma recording_only_after_start_witness :
  exists opus,
    In (UserMedia (MediaGranted opus true))
      [ClickStart; UserMedia (MediaGranted false true)].
Proof.
  apply (recording_only_after_start
           [ClickStart; UserMedia (MediaGranted false true)]
           MoreSamples.recording_default_codec).
  - vm_compute. reflexivity.
  - reflexivity.
Defined.

(** X7: a click on the stop button ends the recording state at once and
    cannot be repeated: in every state a run can reach, after an enabled
    click on stop [isRecording] is false and the stop button is disabled;
    the click itself sends nothing (the upload is sent by the recorder's
    stop event) and leaves the chunks as they are. *)
Theorem stop_click_ends_recording (evs : list Event) (s s' : State) :
  run init evs = Some s ->
  step s ClickStop = Some s' ->
  isRecording s' = false
  /\ stop_disabled s' = true
  /\ step s' ClickStop = None
  /\ log s' = log s
  /\ audioChunksRef s' = audioChunksRef s.
Proof.
  intros Hrun Hstep.
  pose proof (proj1 (run_recording evs s Hrun)) as Hinv.
  assert (Hrec : isRecording s = true).
  { unfold step, stop_disabled in Hstep.
    destruct (isRecording s); [reflexivity|discriminate]. }
  specialize (Hinv Hrec).
  assert (H1 : isRecording s' = false).
  { step_cases Hstep; try reflexivity; congruence. }
  assert (H2 : stop_disabled s' = true)
    by (unfold stop_disabled; now rewrite H1).
  split; [assumption|]. split; [assumption|].
  split; [unfold step; now rewrite H2|].
  split; step_cases Hstep; reflexivity.
Qed.

Lemma stop_click_ends_recording_witness :
  isRecording MoreSamples.stopped_default_codec = false
  /\ stop_disabled MoreSamples.stopped_default_codec = true.
Proof.
  destruct (stop_click_ends_recording
              [ClickStart; UserMedia (MediaGranted false true)]
              MoreSamples.recording_default_codec
              MoreSamples.stopped_default_codec)
    as (H1 & H2 & _).
  - vm_compute. reflexivity.
  - vm_compute. reflexivity.
  - now split.
Defined.

(** ** AudioRecorder: how an upload ends *)

(** X8: a failed upload - the request is rejected, or its answer has a
    [null] body - ends processing without polling: [isProcessing] is
    reset, no timer is set, no request is sent and [currentTaskId] is left
    as it was.  When the [detail] of the server's error body is a string,
    or is falsy (missing, [null], empty), the alert holds a text that is
    not empty: that string when there is a non-empty one, and "Failed to
    start transcription" otherwise.  A [detail] of another type, an array
    or an object, is outside this statement. *)
Theorem failed_upload_shows_detail_or_default (s s' : State) (rid : nat)
    (form : FormData) (ct : string) (o : Outcome) :
  assoc rid (pending s) = Some (PostTranscribe form ct) ->
  match o with
  | Rejected r =>
      Throws.is_string (opt_get (opt_get r "data") "detail") = true
      \/ truthy (opt_get (opt_get r "data") "detail") = false
  | Resolved d => nullish d = true
  end ->
  step s (Response rid o) = Some s' ->
  isProcessing s' = false
  /\ timers s' = timers s
  /\ log s' = log s
  /\ currentTaskId s' = currentTaskId s
  /\ start_disabled s' = isRecording s
  /\ exists text : string,
       error_display s' = Some (JStr text)
       /\ text <> EmptyString
       /\ text =
          match o with
          | Rejected r =>
              match opt_get (opt_get r "data") "detail" with
              | JStr (String c rest) => String c rest
              | _ => "Failed to start transcription"
              end
          | Resolved _ => "Failed to start transcription"
          end.
Proof.
  intros Hp Ho Hstep. unfold step in Hstep. rewrite Hp in Hstep.
  injection Hstep as <-.
  assert (Hsettled :
            processAudio_settled o
              (set_pending (remove_key rid (pending s)) s)
            = processAudio_catch
                (match o with Rejected r => r | Resolved _ => JUndefined end)
                (set_pending (remove_key rid (pending s)) s)).
  { destruct o as [d|r]; [|reflexivity]. unfold processAudio_settled.
    now rewrite (get_prop_nullish d "task_id" Ho). }
  rewrite Hsettled. unfold processAudio_catch, start_disabled, error_display.
  state_simpl. rewrite orb_false_r.
  repeat (split; [reflexivity|]).
  destruct o as [d|r]; cbv beta iota.
  - exists "Failed to start transcription". repeat split. discriminate.
  - destruct (opt_get (opt_get r "data") "detail") as [| |b|q|[|c rest]|l|fs]
      eqn:Ed; destruct Ho as [Ho|Ho]; try discriminate Ho;
      unfold or_else; try rewrite Ho; simpl;
      eexists; (split; [reflexivity|split; [discriminate|reflexivity]]).
Qed.

Lemma failed_upload_shows_detail_or_default_witness :
  error_display MoreSamples.upload_rejected
  = Some (JStr "Unsupported audio format").
Proof.
  destruct (failed_upload_shows_detail_or_default
              MoreSamples.uploading_state MoreSamples.upload_rejected 1
              [("file", new_Blob [Samples.chunk; Samples.chunk] "audio/webm",
                "recording.webm")]
              "multipart/form-data" (Rejected MoreSamples.unsupported))
    as (_ & _ & _ & _ & _ & text & H1 & _ & H3).
  - reflexivity.
  - left. reflexivity.
  - vm_compute. reflexivity.
  - rewrite H1, H3. reflexivity.
Defined.

(** X9: an upload answer without [task_id] is not taken as a failure: for
    a body that is an object without that property (or a string, a
    number), the client shows no error, stays in processing, and its next
    tick polls the progress of the task [undefined]. *)
Theorem answer_without_task_id_is_polled (s s' : State) (rid : nat)
    (form : FormData) (ct : string) (d : JSValue) :
  well_formed s ->
  assoc rid (pending s) = Some (PostTranscribe form ct) ->
  get_prop d "task_id" = Some JUndefined ->
  step s (Response rid (Resolved d)) = Some s' ->
  error s' = error s
  /\ isProcessing s' = isProcessing s
  /\ currentTaskId s' = JUndefined
  /\ polling s' = true
  /\ exists s'',
       step s' (Tick (fresh s)) = Some s''
       /\ log s'' = log s ++ [(fresh s', GetProgress JUndefined)].
Proof.
  intros Hwf Hp Hd Hstep.
  destruct (upload_answer_starts_polling s s' rid form ct d JUndefined
              Hp Hd Hstep) as (Hc & Ht & Hr & Hl).
  assert (Hlive : assoc (fresh s) (timers s') = Some JUndefined).
  { rewrite Ht. apply assoc_fresh. apply Hwf. }
  unfold step in Hstep. rewrite Hp in Hstep. injection Hstep as <-.
  unfold processAudio_settled in *. rewrite Hd in *.
  split; [reflexivity|]. split; [reflexivity|]. split; [reflexivity|].
  split.
  - unfold polling, timer_live. rewrite Hr, Hlive. reflexivity.
  - eexists. split; [unfold step; rewrite Hlive; reflexivity|].
    reflexivity.
Qed.

Lemma answer_without_task_id_is_polled_witness :
  currentTaskId MoreSamples.upload_answered_empty = JUndefined
  /\ polling MoreSamples.upload_answered_empty = true.
Proof.
  destruct (answer_without_task_id_is_polled MoreSamples.uploading_state
              MoreSamples.upload_answered_empty 1
              [("file", new_Blob [Samples.chunk; Samples.chunk] "audio/webm",
                "recording.webm")]
              "multipart/form-data" (JObj []))
    as (_ & _ & H3 & H4 & _).
  - apply (run_well_formed init _ (MoreSamples.recording ++ [RecorderStop 0])
             well_formed_init).
    vm_compute. reflexivity.
  - reflexivity.
  - reflexivity.
  - vm_compute. reflexivity.
  - now split.
Defined.

(** ** TranscriptionResult: missing, empty and malformed fields *)

Import Throws.



Lemma truthy_not_nullish (v : JSValue) :
  truthy v = true -> nullish v = false.
Proof. destruct v; simpl; try discriminate; reflexivity. Qed.




(** X11: a field that is missing, [null], empty or zero is shown as
    missing: for a result whose [transcript], [confidence], [duration],
    [task_id] and [processing_time] are all falsy - an empty transcript
    and a confidence or duration of exactly 0 included - the transcript
    tab shows "No transcript available" and "N/A" four times. *)
Theorem falsy_fields_show_placeholders (result : JSValue) :
  truthy result = true ->
  forallb (fun f => negb (truthy (opt_get result f)))
    ["transcript"; "confidence"; "duration"; "task_id"; "processing_time"]
  = true ->
  render result TabTranscript
  = Some (mkView
            (TranscriptPanel (JStr "No transcript available") (Lit "N/A")
               (Lit "N/A"))
            (JStr "N/A") (Lit "N/A")).
Proof.
  intros Ht Hall.
  rewrite (render_fields result TabTranscript (truthy_not_nullish _ Ht)).
  cbn [forallb] in Hall.
  repeat (apply andb_true_iff in Hall; destruct Hall as [? Hall]).
  repeat match goal with
    | Hf : negb (truthy _) = true |- _ => apply negb_true_iff in Hf
    end.
  unfold seconds_text, confidence_text, or_else.
  repeat match goal with
    | Hf : truthy _ = false |- _ => rewrite Hf; clear Hf
    end.
  reflexivity.
Qed.

Lemma falsy_fields_show_placeholders_witness :
  render (JObj [("transcript", JStr ""); ("confidence", JNum (inject_Z 0));
                ("duration", JNum (inject_Z 0)); ("diagnoses", JArr [])])
    TabTranscript
  = Some (mkView
            (TranscriptPanel (JStr "No transcript available") (Lit "N/A")
               (Lit "N/A"))
            (JStr "N/A") (Lit "N/A")).
Proof.
  apply (falsy_fields_show_placeholders
           (JObj [("transcript", JStr ""); ("confidence", JNum (inject_Z 0));
                  ("duration", JNum (inject_Z 0)); ("diagnoses", JArr [])]));
    reflexivity.
Defined.

(** ** The Home page: stage names and malformed progress *)

(** X13: a stage name is shown with its first underscore, and only the
    first, turned into a space: a name without underscore is shown as it
    is, the text after the first underscore is kept as it is, further
    underscores included, and the length never changes. *)
Theorem replace_underscore_first_only (a b : string) :
  has_underscore a = false ->
  Home.replace_underscore a = a
  /\ Home.replace_underscore (String.append a (String "_"%char b))
     = String.append a (String " "%char b)
  /\ forall s, String.length (Home.replace_underscore s) = String.length s.
Proof.
  intros Ha. split; [|split].
  - induction a as [|c a IH]; [reflexivity|]. simpl in *.
    apply orb_false_iff in Ha. destruct Ha as [-> Ha]. now rewrite IH.
  - induction a as [|c a IH]; [reflexivity|]. simpl in *.
    apply orb_false_iff in Ha. destruct Ha as [-> Ha]. now rewrite IH.
  - clear. induction s as [|c s IH]; [reflexivity|]. simpl.
    destruct (Ascii.eqb c "_"); simpl; [reflexivity|now rewrite IH].
Qed.

Lemma replace_underscore_first_only_witness :
  Home.replace_underscore "extracting_entities_now"
  = "extracting entities_now".
Proof.
  apply (replace_underscore_first_only "extracting" "entities_now").
  reflexivity.
Defined.






(** ** The connection test page *)

(** X15: the page settles on "Backend Connected" exactly when the health
    request is answered with an [ok] status and a body that parses and the
    test request is answered with a body that parses - whatever the
    status of that second answer; in every other case it settles on
    "Connection Failed".  It never settles on "checking". *)
Theorem connected_iff (health test : TestConnection.Fetched) (now : string) :
  (TestConnection.backendStatus (TestConnection.settled health test now)
   = "connected"
   <-> exists h ok t,
         health = TestConnection.FetchResponse true (Some h)
         /\ test = TestConnection.FetchResponse ok (Some t))
  /\ (TestConnection.backendStatus (TestConnection.settled health test now)
      = "connected"
      \/ TestConnection.backendStatus (TestConnection.settled health test now)
         = "error").
Proof.
  unfold TestConnection.settled, TestConnection.testConnection.
  destruct health as [|[|] [h|]]; simpl;
    try (split; [split; [discriminate|intros (? & ? & ? & [=] & _)]
                |right; reflexivity]).
  destruct test as [|ok [t|]]; simpl.
  - split; [split; [discriminate|intros (? & ? & ? & _ & [=])]
           |right; reflexivity].
  - split; [split; [intros _; now exists h, ok, t|reflexivity]
           |left; reflexivity].
  - split; [split; [discriminate|intros (? & ? & ? & _ & [=])]
           |right; reflexivity].
Qed.

(** X16: the test results card is shown exactly when the page settled on
    "Backend Connected", and then it shows the two bodies received and the
    time of the test; a failure of either request leaves no results. *)
Theorem results_shown_iff_connected (health test : TestConnection.Fetched)
    (now : string) :
  (TestConnection.results_card (TestConnection.settled health test now)
   <> None
   <-> TestConnection.backendStatus (TestConnection.settled health test now)
       = "connected")
  /\ forall h ok t,
       health = TestConnection.FetchResponse true (Some h) ->
       test = TestConnection.FetchResponse ok (Some t) ->
       TestConnection.results_card (TestConnection.settled health test now)
       = Some (TestConnection.mkCard h t (JStr now)).
Proof.
  split.
  - unfold TestConnection.settled, TestConnection.testConnection.
    destruct health as [|[|] [h|]]; simpl;
      try (split; [intros H; now contradiction H|discriminate]).
    destruct test as [|ok [t|]]; simpl;
      try (split; [intros H; now contradiction H|discriminate]).
    split; [reflexivity|discriminate].
  - intros h ok t -> ->. reflexivity.
Qed.

(** X17: whatever the two requests do, every state the page goes through
    shows exactly one of the three status blocks and never "checking"
    again; "Backend Connected" is shown on the way exactly when the health
    request succeeded, also when the test request then fails and the page
    ends on "Connection Failed". *)
Theorem one_status_block_at_a_time (health test : TestConnection.Fetched)
    (now : string) :
  Forall (fun s => exists b, TestConnection.status_blocks s = [b]
                             /\ b <> TestConnection.Checking)
    (TestConnection.testConnection health test now TestConnection.init)
  /\ (Exists (fun s => TestConnection.status_blocks s
                       = [TestConnection.Connected])
        (TestConnection.testConnection health test now TestConnection.init)
      <-> exists h, health = TestConnection.FetchResponse true (Some h)).
Proof.
  unfold TestConnection.testConnection. split.
  - destruct health as [|[|] [h|]]; try destruct test as [|ok [t|]];
      repeat constructor; eexists; (split; [reflexivity|discriminate]).
  - destruct health as [|[|] [h|]]; try destruct test as [|ok [t|]];
      split;
      try (intros _; now exists h);
      try (intros _; constructor; reflexivity);
      try (intros [? [=]]);
      intros Hex;
      repeat match goal with
        | Hx : Exists _ (_ :: _) |- _ => inversion_clear Hx
        | Hx : Exists _ [] |- _ => inversion Hx
        | Hx : TestConnection.status_blocks _ = _ |- _ => discriminate Hx
        end.
Qed.

(** ** Polling without end *)

Lemma non_stopping_rounds_witness :
  exists s,
    poll_rounds 2 MoreSamples.three_failed_answers Samples.submitted_state
    = Some s
    /\ polling s = true
    /\ length (log s) = 4.
Proof.
  destruct (non_stopping_rounds MoreSamples.three_failed_answers
              Samples.submitted_state 2 (JStr "t1"))
    as (s & H1 & H2 & _ & _ & H5).
  - apply (run_well_formed init _ Samples.submitted well_formed_init).
    vm_compute. reflexivity.
  - reflexivity.
  - reflexivity.
  - repeat constructor.
  - exists s. repeat split; assumption.
Defined.

(** ** Polls that do not overlap, on the sample run *)

Lemma single_result_query_without_overlap_witness :
  In (4, GetResults (JStr "t1")) (log Samples.first_poll)
  \/ (4, GetResults (JStr "t1")) = (4, GetResults (JStr "t1")).
Proof.
  apply (single_result_query_without_overlap Samples.first_poll
           Samples.first_poll_completed 3 (JStr "t1")
           Samples.completed_progress)
    with (evs := Samples.next_recording) (s'' := Samples.next_recording_state).
  - apply (run_well_formed init _ (Samples.submitted ++ [Tick 2])
             well_formed_init).
    vm_compute. reflexivity.
  - reflexivity.
  - reflexivity.
  - intros i Hi. destruct Hi as [Hi|[]]. injection Hi as <-. reflexivity.
  - intros r q Hi _. destruct Hi as [Hi|[]]. now injection Hi as <- <-.
  - vm_compute. reflexivity.
  - vm_compute. reflexivity.
  - intros r d form ct [Hd|[Hd|[]]]; [|discriminate Hd].
    injection Hd as <- <-. intros Hin. exfalso.
    repeat (destruct Hin as [Hin|Hin]; [discriminate Hin|]). exact Hin.
  - repeat (first [left; reflexivity|right]).
  - right. reflexivity.
Defined.

Lemma poll_failure_is_final_without_overlap_witness :
  error Samples.first_poll_failed = JStr "Failed to get progress"
  /\ polling Samples.first_poll_failed = false
  /\ In (3, GetProgress (JStr "t1")) (log Samples.first_poll).
Proof.
  destruct (poll_failure_is_final_without_overlap Samples.first_poll
              Samples.first_poll_failed 3 (JStr "t1") JUndefined)
    as (H1 & H2 & _ & _ & H5).
  - apply (run_well_formed init _ (Samples.submitted ++ [Tick 2])
             well_formed_init).
    vm_compute. reflexivity.
  - reflexivity.
  - intros i Hi. destruct Hi as [Hi|[]]. injection Hi as <-. reflexivity.
  - intros r q Hi _. destruct Hi as [Hi|[]]. now injection Hi as <- <-.
  - vm_compute. reflexivity.
  - split; [exact H1|]. split; [exact H2|].
    apply (H5 [ClickStart] Samples.recording_after_failure).
    + vm_compute. reflexivity.
    + intros r d form ct [Hd|[]]. discriminate Hd.
    + repeat (first [left; reflexivity|right]).
    + left. reflexivity.
Defined.
(** * The upload and the task id, job by job *)

Import Jobs.

(** ** What is uploaded *)

(** A request is uploaded only when a recorder stops, and it carries the
    chunks held at that moment. *)
Lemma step_upload (s s' : State) (e : Event) (k : nat) (form : FormData)
    (ct : string) :
  step s e = Some s' ->
  In (k, PostTranscribe form ct) (log s') ->
  In (k, PostTranscribe form ct) (log s)
  \/ (exists r,
        e = RecorderStop r /\ k = fresh s
        /\ form = [("file", new_Blob (audioChunksRef s) "audio/webm",
                    "recording.webm")]
        /\ ct = "multipart/form-data").
Proof.
  intros H.
  destruct e as [| |mo|r data|r|tm|rid o]; step_cases H;
    intros Hin; state_simpl;
    try (left; assumption);
    in_cases; try discriminate;
    try (left; assumption).
  all: right; exists r; repeat split.
Qed.

Lemma run_uploads (evs : list Event) (s : State) (k : nat)
    (form : FormData) (ct : string) :
  run init evs = Some s ->
  In (k, PostTranscribe form ct) (log s) ->
  exists before r rest s0,
    evs = before ++ RecorderStop r :: rest
    /\ run init before = Some s0
    /\ k = fresh s0
    /\ form = [("file", new_Blob (audioChunksRef s0) "audio/webm",
                "recording.webm")]
    /\ ct = "multipart/form-data".
Proof.
  revert s. induction evs as [|e evs IH] using rev_ind; intros s H Hin.
  - injection H as <-. destruct Hin.
  - apply run_snoc in H. destruct H as (s1 & Hrun & Hstep).
    destruct (step_upload s1 s e k form ct Hstep Hin)
      as [Hold|(r & -> & -> & -> & ->)].
    + destruct (IH s1 Hrun Hold) as (before & r & rest & s0 & -> & H0 & Hk).
      exists before, r, (rest ++ [e]), s0. split; [|now split].
      now rewrite <- app_assoc.
    + exists evs, r, [], s1. repeat split. assumption.
Qed.

Lemma kept_chunks_recorded (evs : list Event) :
  forall (done : list Event) (acc : list Blob),
    Forall (recorded done) acc ->
    Forall (recorded (done ++ evs)) (kept_chunks acc evs).
Proof.
  induction evs as [|e evs IH]; intros done acc Hacc.
  - now rewrite app_nil_r.
  - assert (Hmono : forall l, Forall (recorded done) l ->
                              Forall (recorded (done ++ [e])) l).
    { intros l. apply List.Forall_impl. intros c [Hs [r Hin]].
      split; [assumption|]. exists r. apply in_or_app. now left. }
    replace (done ++ e :: evs) with ((done ++ [e]) ++ evs)
      by now rewrite <- app_assoc.
    destruct e as [| |[|opus started]|r d|r|t|rid o]; cbn [kept_chunks];
      apply IH; try (now apply Hmono); try constructor.
    destruct (Nat.ltb 0 (blob_size d)) eqn:Es; [|now apply Hmono].
    apply Forall_app. split; [now apply Hmono|].
    constructor; [|constructor]. split; [now apply Nat.ltb_lt|].
    exists r. apply in_or_app. right. now left.
Qed.

(** C9: in every run, every upload is sent when a recorder stops and
    carries one multipart entry, the field [file] with file name
    "recording.webm"; its blob has type [audio/webm] whatever type the
    recorder negotiated and whatever type its chunks carry, and its bytes
    are those of the chunks that [audioChunksRef] holds at that moment, in
    order: exactly the chunks delivered since the recorder was set up
    whose size is greater than zero. *)
Theorem upload_is_one_webm_file_of_nonempty_chunks
    (evs : list Event) (s : State) (rid : nat) (form : FormData)
    (ct : string) :
  run init evs = Some s ->
  In (rid, PostTranscribe form ct) (log s) ->
  exists before r rest s0,
    evs = before ++ RecorderStop r :: rest
    /\ run init before = Some s0
    /\ rid = fresh s0
    /\ audioChunksRef s0 = kept_chunks [] before
    /\ form = [("file",
                mkBlob (concat (map blob_bytes (audioChunksRef s0)))
                  "audio/webm",
                "recording.webm")]
    /\ ct = "multipart/form-data"
    /\ Forall (fun c => 0 < blob_size c
                        /\ exists r', In (DataAvailable r' c) before)
         (audioChunksRef s0).
Proof.
  intros Hrun Hin.
  destruct (run_uploads evs s rid form ct Hrun Hin)
    as (before & r & rest & s0 & Hevs & H0 & Hk & Hform & Hct).
  exists before, r, rest, s0.
  assert (Hc : audioChunksRef s0 = kept_chunks [] before)
    by exact (run_audioChunks before init s0 H0).
  repeat (split; [assumption|]).
  rewrite Hc. apply (kept_chunks_recorded before [] []). constructor.
Qed.

Lemma upload_is_one_webm_file_of_nonempty_chunks_witness :
  exists before r rest s0,
    Samples.submitted = before ++ RecorderStop r :: rest
    /\ run init before = Some s0
    /\ 1 = fresh s0
    /\ audioChunksRef s0 = kept_chunks [] before
    /\ [("file",
         mkBlob (blob_bytes Samples.chunk ++ blob_bytes Samples.chunk)
           "audio/webm",
         "recording.webm")]
       = [("file",
           mkBlob (concat (map blob_bytes (audioChunksRef s0))) "audio/webm",
           "recording.webm")]
    /\ "multipart/form-data" = "multipart/form-data"
    /\ Forall (fun c => 0 < blob_size c
                        /\ exists r', In (DataAvailable r' c) before)
         (audioChunksRef s0).
Proof.
  apply (upload_is_one_webm_file_of_nonempty_chunks Samples.submitted
           Samples.submitted_state 1 _ "multipart/form-data").
  - vm_compute. reflexivity.
  - left. reflexivity.
Defined.

(** ** The task id of a job *)

Lemma unique_ids_init : unique_ids init.
Proof. intros k r r' []. Qed.

Lemma step_unique_ids (s s' : State) (e : Event) :
  well_formed s -> unique_ids s -> step s e = Some s' -> unique_ids s'.
Proof.
  intros (_ & Hl & _) Hu H k r r' Hr Hr'.
  destruct (step_log s s' e H) as [E|(q & E & _)]; rewrite E in Hr, Hr'.
  - now apply (Hu k).
  - apply in_app_or in Hr. apply in_app_or in Hr'.
    destruct Hr as [Hr|[Hr|[]]], Hr' as [Hr'|[Hr'|[]]].
    + now apply (Hu k).
    + injection Hr' as <- <-. specialize (Hl _ _ Hr). lia.
    + injection Hr as <- <-. specialize (Hl _ _ Hr'). lia.
    + congruence.
Qed.

Lemma run_unique_ids (s s' : State) (evs : list Event) :
  well_formed s -> unique_ids s -> run s evs = Some s' -> unique_ids s'.
Proof.
  revert s. induction evs as [|e evs IH]; intros s Hwf Hu H; simpl in H.
  - now injection H as <-.
  - destruct (step s e) as [s1|] eqn:E; [|discriminate].
    apply (IH s1); [| |assumption].
    + now apply (step_well_formed s s1 e).
    + now apply (step_unique_ids s s1 e).
Qed.

Lemma step_fresh_le (s s' : State) (e : Event) :
  step s e = Some s' -> fresh s <= fresh s'.
Proof.
  intros H. destruct e as [| |mo|r data|r|tm|rid o]; step_cases H; lia.
Qed.

(** A timer keeps the task id it was set up with: a step only adds a timer
    under the fresh identifier, or removes timers. *)
Lemma step_timers (s s' : State) (e : Event) (i : nat) (u : JSValue) :
  step s e = Some s' ->
  In (i, u) (timers s') -> In (i, u) (timers s) \/ i = fresh s.
Proof.
  intros H.
  destruct e as [| |mo|r data|r|tm|rid o]; step_cases H;
    intros Hin; state_simpl;
    try (left; assumption);
    in_cases;
    try (left; assumption);
    try (right; reflexivity).
Qed.

(** The request that an event of job [j] sends carries the task id of the
    job's timer. *)
Lemma job_request_sends (j : nat) (t : JSValue) (s s' : State) (e : Event)
    (acc : list nat) :
  well_formed s -> unique_ids s ->
  (forall u, In (j, u) (timers s) -> u = t) ->
  (forall k, In k acc ->
             In (k, GetProgress t) (log s) \/ In (k, GetResults t) (log s)) ->
  step s e = Some s' ->
  job_request j s e acc = true ->
  In (fresh s, GetProgress t) (log s')
  \/ In (fresh s, GetResults t) (log s').
Proof.
  intros Hwf Hu Ht Hacc Hstep Hjr.
  destruct e as [| |mo|r data|r|i|k o]; try discriminate Hjr.
  - cbn [job_request] in Hjr. apply Nat.eqb_eq in Hjr. subst i.
    unfold step in Hstep.
    destruct (assoc j (timers s)) as [taskId|] eqn:Ea; [|discriminate].
    injection Hstep as <-. apply assoc_In in Ea.
    rewrite (Ht taskId Ea). left. unfold interval_callback, send.
    state_simpl. apply in_or_app. right. now left.
  - destruct o as [p|err]; [|discriminate Hjr]. cbn [job_request] in Hjr.
    apply andb_true_iff in Hjr. destruct Hjr as [Hjr Hc].
    apply andb_true_iff in Hjr. destruct Hjr as [Hk Hout].
    apply existsb_exists in Hk. destruct Hk as (x & Hx & Hkx).
    apply Nat.eqb_eq in Hkx. subst x.
    unfold out_as_progress_query in Hout.
    destruct (assoc k (pending s)) as [[form ct|u|u]|] eqn:Ep;
      try discriminate Hout.
    unfold reports_completed in Hc.
    destruct (get_prop p "status") as [st|] eqn:Est; [|discriminate Hc].
    apply is_str_true in Hc. subst st.
    assert (Hlog : In (k, GetProgress u) (log s))
      by (apply Hwf; now apply assoc_In).
    assert (u = t) as ->.
    { destruct (Hacc k Hx) as [Hin|Hin];
        pose proof (Hu k _ _ Hlog Hin) as E; [now injection E|discriminate E]. }
    destruct (completed_sends_result_query s s' k t p Ep Est Hstep)
      as [Hl _].
    right. rewrite Hl. apply in_or_app. right. now left.
Qed.

Lemma job_requests_sound (j : nat) (t : JSValue) (evs : list Event) :
  forall (s s2 : State) (acc : list nat),
    well_formed s -> unique_ids s -> j < fresh s ->
    (forall u, In (j, u) (timers s) -> u = t) ->
    (forall k, In k acc ->
               In (k, GetProgress t) (log s) \/ In (k, GetResults t) (log s)) ->
    run s evs = Some s2 ->
    forall k, In k (job_requests j s evs acc) ->
              In (k, GetProgress t) (log s2) \/ In (k, GetResults t) (log s2).
Proof.
  induction evs as [|e evs IH]; intros s s2 acc Hwf Hu Hj Ht Hacc Hrun;
    cbn [run job_requests] in *.
  - injection Hrun as <-. assumption.
  - destruct (step s e) as [s'|] eqn:E; [|discriminate].
    assert (Hincl : incl (log s) (log s')) by exact (step_log_incl s s' e E).
    apply (IH s' s2); try assumption.
    + now apply (step_well_formed s s' e).
    + now apply (step_unique_ids s s' e).
    + pose proof (step_fresh_le s s' e E). lia.
    + intros u Hin. destruct (step_timers s s' e j u E Hin) as [Hold|Heq];
        [now apply Ht|lia].
    + intros k Hin.
      assert (Hold : In k acc ->
                     In (k, GetProgress t) (log s')
                     \/ In (k, GetResults t) (log s')).
      { intros Hk. destruct (Hacc k Hk) as [?|?];
          [left|right]; now apply Hincl. }
      destruct (job_request j s e acc) eqn:Ejr; [|now apply Hold].
      apply in_app_or in Hin. destruct Hin as [Hin|[<-|[]]];
        [now apply Hold|].
      exact (job_request_sends j t s s' e acc Hwf Hu Ht Hacc E Ejr).
Qed.

(** C6: a job is one upload and its answer.  The upload carries the bytes
    of the chunks recorded before the recorder stopped, as one blob with
    the declared type [audio/webm]; when it is answered, the payload's
    [task_id] becomes the current task and the closure of the polling
    timer set up for the job; from then on every request of that job - the
    progress query sent by each tick of its timer, and the result query
    sent when a progress query of the job is answered [completed] - names
    that [task_id] and no other, whatever other jobs the run holds; and
    every progress or result query of the run carries a task id that the
    answer to an upload of the run handed out. *)
Theorem queries_use_submitted_task_id
    (pre evs : list Event) (s s1 s2 : State) (rid : nat) (form : FormData)
    (ct : string) (d t : JSValue) :
  run init pre = Some s ->
  assoc rid (pending s) = Some (PostTranscribe form ct) ->
  get_prop d "task_id" = Some t ->
  step s (Response rid (Resolved d)) = Some s1 ->
  run s1 evs = Some s2 ->
  (exists before r rest s0,
      pre = before ++ RecorderStop r :: rest
      /\ run init before = Some s0
      /\ rid = fresh s0
      /\ form = [("file",
                  mkBlob (concat (map blob_bytes (kept_chunks [] before)))
                    "audio/webm",
                  "recording.webm")]
      /\ ct = "multipart/form-data")
  /\ currentTaskId s1 = t
  /\ timers s1 = timers s ++ [(fresh s, t)]
  /\ progressIntervalRef s1 = Some (fresh s)
  /\ (forall k,
        In k (job_requests (fresh s) s1 evs []) ->
        (In (k, GetProgress t) (log s2) \/ In (k, GetResults t) (log s2))
        /\ forall q, In (k, q) (log s2) ->
                     q = GetProgress t \/ q = GetResults t)
  /\ (forall k u,
        In (k, GetProgress u) (log s2) \/ In (k, GetResults u) (log s2) ->
        handed_out (pre ++ Response rid (Resolved d) :: evs) s2 u).
Proof.
  intros Hpre Hp Hd Hstep Hrun.
  assert (Hwf : well_formed s)
    by exact (run_well_formed init s pre well_formed_init Hpre).
  assert (Hu : unique_ids s)
    by exact (run_unique_ids init s pre well_formed_init unique_ids_init Hpre).
  assert (Hwf1 : well_formed s1)
    by exact (step_well_formed s s1 _ Hwf Hstep).
  assert (Hu1 : unique_ids s1)
    by exact (step_unique_ids s s1 _ Hwf Hu Hstep).
  destruct (upload_answer_starts_polling s s1 rid form ct d t Hp Hd Hstep)
    as (Hcur & Htm & Hpi & _).
  assert (Hall : run init (pre ++ Response rid (Resolved d) :: evs) = Some s2).
  { rewrite run_app, Hpre. cbn [run]. now rewrite Hstep. }
  split; [|split; [|split; [|split; [|split]]]]; try assumption.
  - assert (Hin : In (rid, PostTranscribe form ct) (log s))
      by (apply Hwf; now apply assoc_In).
    destruct (run_uploads pre s rid form ct Hpre Hin)
      as (before & r & rest & s0 & Hevs & H0 & Hk & Hform & Hct).
    exists before, r, rest, s0. repeat (split; [assumption|]).
    split; [|assumption].
    assert (Hc : audioChunksRef s0 = kept_chunks [] before)
      by exact (run_audioChunks before init s0 H0).
    rewrite <- Hc. exact Hform.
  - intros k Hk.
    assert (Hsound :
              In (k, GetProgress t) (log s2) \/ In (k, GetResults t) (log s2)).
    { apply (job_requests_sound (fresh s) t evs s1 s2 []); try assumption.
      - destruct Hwf1 as (_ & _ & Ht1). apply (Ht1 (fresh s) t).
        rewrite Htm. apply in_or_app. right. now left.
      - intros u Hin. rewrite Htm in Hin. apply in_app_or in Hin.
        destruct Hin as [Hin|[Hin|[]]]; [|now injection Hin].
        destruct Hwf as (_ & _ & Ht0). specialize (Ht0 _ _ Hin). lia.
      - intros ? []. }
    split; [assumption|]. intros q Hq.
    pose proof (run_unique_ids s1 s2 evs Hwf1 Hu1 Hrun) as Hu2.
    destruct Hsound as [Hin|Hin]; [left|right]; exact (Hu2 k _ _ Hq Hin).
  - intros k u Hin. destruct (run_task_ids _ s2 Hall) as (_ & Hl & _).
    destruct Hin as [Hin|Hin].
    + apply (Hl k (GetProgress u)); [assumption|now left].
    + apply (Hl k (GetResults u)); [assumption|now right].
Qed.

Lemma queries_use_submitted_task_id_witness :
  (In (8, GetProgress (JStr "t2")) (log second_job_completed)
   \/ In (8, GetResults (JStr "t2")) (log second_job_completed))
  /\ (In (9, GetProgress (JStr "t2")) (log second_job_completed)
      \/ In (9, GetResults (JStr "t2")) (log second_job_completed))
  /\ (forall q, In (9, q) (log second_job_completed) ->
                q = GetProgress (JStr "t2") \/ q = GetResults (JStr "t2")).
Proof.
  destruct (queries_use_submitted_task_id
              (removelast Samples.stale_poll) second_job_polled
              second_upload_out second_job_started second_job_completed 6
              [("file", new_Blob [Samples.chunk] "audio/webm",
                "recording.webm")]
              "multipart/form-data"
              (JObj [("task_id", JStr "t2")]) (JStr "t2"))
    as (_ & _ & _ & _ & H & _); try (vm_compute; reflexivity).
  split; [|split].
  - apply (H 8). vm_compute. left. reflexivity.
  - apply (H 9). vm_compute. right. left. reflexivity.
  - apply (H 9). vm_compute. right. left. reflexivity.
Defined.
